(** * ai-summarizer: the /summarize handler of [src/app.py]

    A shallow embedding of the long-input chunking and re-summarization
    pipeline, the title extractor and the request handler, together with
    the properties the specification states about them.

    Python values are modelled as the handler meets them: a [str] is a
    sequence of Unicode code points, the JSON body is a dictionary from
    strings to JSON values, an exception is a class with the message that
    [str(e)] gives.  The tokenizer, the summarization model and the
    document store are opaque capabilities, gathered in the class
    [Backend]; a request runs in a [World] that holds the sampling state
    of the model, the clock, the store and the trace of what the handler
    has logged, tokenized, summarized and saved.

    The model starts where [summarize()] starts, with [request.json] a
    JSON object: routing, CORS and the rate limit of the decorators are
    the framework's.  Exceptions are those that [except Exception]
    catches, and [save()] either stores the record or raises and stores
    nothing. *)

From Stdlib Require Import ZArith QArith String Ascii Lia.
From stdpp Require Import gmap list pretty.

Set Warnings "-register-all".
Open Scope Z_scope.

(** ** Python strings *)

(** A [str] is a list of code points. *)
Abbreviation pystr := (list N) (only parsing).

(** An ASCII literal of the source, as a [str]. *)
Definition str (s : string) : pystr := map N_of_ascii (list_ascii_of_string s).
Arguments str : simpl never.

(** [str.isspace] on one code point: the characters that [str.split()]
    treats as separators. *)
Definition isspace (c : N) : bool :=
  ((9 <=? c) && (c <=? 13) || (28 <=? c) && (c <=? 32)
   || (c =? 133) || (c =? 160) || (c =? 5760)
   || (8192 <=? c) && (c <=? 8202)
   || (c =? 8232) || (c =? 8233) || (c =? 8239) || (c =? 8287)
   || (c =? 12288))%N.

(** [split_from cur s]: the scan of [str.split()] over [s], where [cur]
    holds the characters of the word being read, last one first. *)
Fixpoint split_from (cur s : pystr) : list pystr :=
  match s with
  | [] => match cur with [] => [] | _ => [rev cur] end
  | c :: s' =>
      if isspace c
      then match cur with
           | [] => split_from [] s'
           | _ => rev cur :: split_from [] s'
           end
      else split_from (c :: cur) s'
  end.

(** [text.split()] *)
Definition split (s : pystr) : list pystr := split_from [] s.

(** [sep.join(parts)] *)
Fixpoint join (sep : pystr) (parts : list pystr) : pystr :=
  match parts with
  | [] => []
  | [w] => w
  | w :: rest => w ++ sep ++ join sep rest
  end.

(** [s.endswith(suffix)] *)
Definition endswith (s suffix : pystr) : bool :=
  bool_decide (drop (length s - length suffix)%nat s = suffix).

(** ** Exceptions and results *)

Inductive ExcClass :=
| IndexError | KeyError | TypeError | ValueError | AttributeError
| OtherException (name : pystr).

Record Exc := mkExc { exc_class : ExcClass; exc_msg : pystr }.

(** What [except IndexError] catches. *)
Definition is_IndexError (e : Exc) : bool :=
  match exc_class e with IndexError => true | _ => false end.

Inductive result (A : Type) :=
| Ok (a : A)
| Raise (e : Exc).
Arguments Ok {A} a.
Arguments Raise {A} e.

(** Evaluation stops at the first exception. *)
#[export] Instance result_bind : MBind result := fun A B k r =>
  match r with
  | Ok a => k a
  | Raise e => Raise e
  end.

(** ** Slices and ranges *)

(** [len(l)] *)
Definition len {A} (l : list A) : Z := Z.of_nat (length l).

(** A slice bound brought into [0, len], the way Python normalises it. *)
Definition clamp_index (len i : Z) : Z :=
  if i <? 0 then Z.max (i + len) 0 else Z.min i len.

(** [l[i:j]] *)
Definition slice {A} (l : list A) (i j : Z) : list A :=
  let n := len l in
  let lo := clamp_index n i in
  let hi := clamp_index n j in
  take (Z.to_nat (hi - lo)) (drop (Z.to_nat lo) l).

(** [len(range(lo, hi, step))] for a non-zero step. *)
Definition range_len (lo hi step : Z) : Z :=
  if 0 <? step
  then (if lo <? hi then (hi - lo - 1) / step + 1 else 0)
  else (if hi <? lo then (lo - hi - 1) / (- step) + 1 else 0).

(** [range(lo, hi, step)], which refuses a zero step. *)
Definition range (lo hi step : Z) : result (list Z) :=
  if step =? 0
  then Raise (mkExc ValueError (str "range() arg 3 must not be zero"))
  else Ok (map (fun k => lo + Z.of_nat k * step)
               (seq 0 (Z.to_nat (range_len lo hi step)))).

(** ** The chunker (app.py, lines 65-68) *)

(** [chunk_text(text, max_words, overlap)], with the generator run to its
    end as [list(chunk_text(text))] does. *)
Definition chunk_text (text : pystr) (max_words overlap : Z) : result (list pystr) :=
  let words := split text in
  match range 0 (len words) (max_words - overlap) with
  | Raise e => Raise e
  | Ok starts =>
      Ok (map (fun i => join (str " ") (slice words i (i + max_words))) starts)
  end.

(** The same loop, keeping for each chunk the index [i] of its first word
    and the words of the window [words[i:i + max_words]]. *)
Definition chunk_windows (text : pystr) (max_words overlap : Z)
  : result (list (Z * list pystr)) :=
  let words := split text in
  match range 0 (len words) (max_words - overlap) with
  | Raise e => Raise e
  | Ok starts => Ok (map (fun i => (i, slice words i (i + max_words))) starts)
  end.

(** The number of word positions of the text that two windows have in
    common. *)
Definition shared (w1 w2 : Z * list pystr) : Z :=
  Z.max 0 (Z.min (w1.1 + len w1.2) (w2.1 + len w2.2) - Z.max w1.1 w2.1).

(** ** JSON values of the request body *)

(** A Python [float]: a finite binary value [m * 2^e], an infinity or a
    NaN.  The handler only ever tests one for truth. *)
Inductive PyFloat :=
| FFinite (m e : Z)
| FInf (negative : bool)
| FNaN.

(** What [request.json] holds: the Python image of a JSON value. *)
Inductive PyVal :=
| PNone
| PBool (b : bool)
| PInt (z : Z)
| PFloat (f : PyFloat)
| PStr (s : pystr)
| PList (l : list PyVal)
| PDict (d : gmap (list N) PyVal).

(** [bool(v)], as [not text] and [not title] use it. *)
Definition truthy (v : PyVal) : bool :=
  match v with
  | PNone => false
  | PBool b => b
  | PInt z => negb (z =? 0)
  | PFloat (FFinite m _) => negb (m =? 0)
  | PFloat _ => true
  | PStr s => match s with [] => false | _ => true end
  | PList l => match l with [] => false | _ => true end
  | PDict d => negb (bool_decide (d = ∅))
  end.

(** [v == s] for a string literal [s]. *)
Definition eq_str (v : PyVal) (s : pystr) : bool :=
  match v with
  | PStr s' => bool_decide (s' = s)
  | _ => false
  end.

(** [type(v).__name__] *)
Definition type_name (v : PyVal) : pystr :=
  match v with
  | PNone => str "NoneType"
  | PBool _ => str "bool"
  | PInt _ => str "int"
  | PFloat _ => str "float"
  | PStr _ => str "str"
  | PList _ => str "list"
  | PDict _ => str "dict"
  end.

(** The exception of [v.name] when [v] has no attribute [name]. *)
Definition attribute_error (v : PyVal) (name : pystr) : Exc :=
  mkExc AttributeError
    (str "'" ++ type_name v ++ str "' object has no attribute '" ++ name ++ str "'").

(** [table.get(key, default)] on a dictionary with string keys: the key
    is hashed first, which a list or a dict refuses (with this message up
    to CPython 3.13). *)
Definition dict_get {V} (table : gmap (list N) V) (key : PyVal) (dflt : V) : result V :=
  match key with
  | PList _ | PDict _ =>
      Raise (mkExc TypeError (str "unhashable type: '" ++ type_name key ++ str "'"))
  | PStr s => Ok (default dflt (table !! s))
  | _ => Ok dflt
  end.

(** [l[0]] *)
Definition item0 {A} (l : list A) : result A :=
  match l with
  | x :: _ => Ok x
  | [] => Raise (mkExc IndexError (str "list index out of range"))
  end.

(** [d[key]] *)
Definition getitem {V} (d : gmap (list N) V) (key : pystr) : result V :=
  match d !! key with
  | Some v => Ok v
  | None => Raise (mkExc KeyError (str "'" ++ key ++ str "'"))
  end.

(** [out[0]["summary_text"]] *)
Definition first_summary_text (out : list (gmap (list N) (list N))) : result pystr :=
  first ← item0 out; getitem first (str "summary_text").

(** ** The summarization capability and the document store *)

(** The arguments of one call [summarizer(text, max_length=..., ...)];
    a keyword the call does not pass is [None]. *)
Record SummarizerCall := mkCall {
  call_text : pystr;
  max_length : Z;
  min_length : Z;
  num_beams : option Z;
  do_sample : bool;
  temperature : option Q;
  top_k : option Z;
  top_p : option Q
}.

(** What the summarizer hands back: a list of dictionaries. *)
Abbreviation SummarizerOutput := (list (gmap (list N) (list N))) (only parsing).

(** [class SummaryRecord(Document)] (app.py, lines 49-55) *)
Record SummaryRecord := mkRecord {
  rec_text : pystr;
  rec_summary : pystr;
  rec_title : pystr;
  rec_createdAt : Z;
  rec_success : bool;
  rec_error : pystr
}.

(** The collaborators of the handler.  [Rng] is whatever state the model
    draws on when it samples; [store_refuses r db] is the exception with
    which [r.save()] fails on the store [db], if it does. *)
Class Backend := {
  Rng : Type;
  tokenizer_encode : pystr -> result (list Z);
  summarizer : SummarizerCall -> Rng -> result SummarizerOutput * Rng;
  store_refuses : SummaryRecord -> list SummaryRecord -> option Exc
}.

(** ** The state a request runs in *)

Inductive LogLevel := INFO | WARNING | ERROR.

Inductive Event :=
| EvLog (level : LogLevel) (msg : pystr)
| EvTokenize (text : pystr)
| EvSummarize (c : SummarizerCall) (r : result SummarizerOutput)
| EvSave (r : SummaryRecord).

Record World `{Backend} := mkWorld {
  rng : Rng;
  clock : Z;
  store : list SummaryRecord;
  trace : list Event
}.

(** A JSON response with its status code. *)
Record Response := mkResponse {
  status : Z;
  body : gmap (list N) PyVal
}.

(** ** Constants of the module *)

Definition MAX_TOKENS : Z := 1024.

(** The table of lines 107-111. *)
Definition LENGTH_PRESETS : gmap (list N) (Z * Z) :=
  <[str "short" := (15, 30)]>
    (<[str "medium" := (50, 100)]>
       (<[str "long" := (100, 180)]> ∅)).

(** The keyword arguments of the three calls of the summarizer:
    per chunk (line 123), on the combined partial summaries (lines 73-82)
    and on the whole text (lines 129-138). *)
Definition chunk_call (chunk : pystr) (preset_max preset_min : Z) : SummarizerCall :=
  {| call_text := chunk;
     max_length := preset_max;
     min_length := preset_min;
     num_beams := None;
     do_sample := false;
     temperature := None;
     top_k := None;
     top_p := None |}.

Definition combined_call (combined_summary : pystr) (preset_max preset_min : Z)
    (mode : PyVal) : SummarizerCall :=
  {| call_text := combined_summary;
     max_length := preset_max;
     min_length := preset_min;
     num_beams := Some 5;
     do_sample := if eq_str mode (str "creative") then true else false;
     temperature := Some 1.2%Q;
     top_k := Some 100;
     top_p := Some 0.95%Q |}.

Definition direct_call (text : pystr) (preset_max preset_min : Z)
    (mode : PyVal) : SummarizerCall :=
  {| call_text := text;
     max_length := preset_max;
     min_length := preset_min;
     num_beams := Some 5;
     do_sample := if eq_str mode (str "creative") then true else false;
     temperature := Some 1.2%Q;
     top_k := Some 50;
     top_p := Some 0.9%Q |}.

(** The title of lines 141-145. *)
Definition make_title (summary : pystr) : pystr :=
  let title := join (str " ") (slice (split summary) 0 12) in
  let title := if negb (truthy (PStr title)) then str "Untitled Summary" else title in
  if negb (endswith title (str ".")) then title ++ str "..." else title.

(** The three JSON bodies the handler answers with. *)
Definition bad_request : Response :=
  {| status := 400;
     body := <[str "ok" := PBool false]>
               (<[str "error" := PStr (str "Input text is required.")]> ∅) |}.

Definition server_error (msg : pystr) : Response :=
  {| status := 500; body := <[str "error" := PStr msg]> ∅ |}.

Definition success (title summary : pystr) (original_length summary_length token_count : Z)
  : Response :=
  {| status := 200;
     body := <[str "title" := PStr title]>
               (<[str "summary" := PStr summary]>
                  (<[str "original_length" := PInt original_length]>
                     (<[str "summary_length" := PInt summary_length]>
                        (<[str "token_count" := PInt token_count]> ∅)))) |}.

(** [f"{n}"] *)
Definition fmt (n : Z) : pystr := str (pretty n).

(** ** Reading a trace *)

(** The calls of the summarizer recorded in a trace, oldest first. *)
Definition summarizer_calls (tr : list Event) : list SummarizerCall :=
  omap (fun ev => match ev with EvSummarize c _ => Some c | _ => None end) tr.

(** The texts handed to the tokenizer. *)
Definition tokenizer_calls (tr : list Event) : list pystr :=
  omap (fun ev => match ev with EvTokenize t => Some t | _ => None end) tr.

(** The records handed to the store. *)
Definition saved_records (tr : list Event) : list SummaryRecord :=
  omap (fun ev => match ev with EvSave r => Some r | _ => None end) tr.

(** The calls of the summarizer with what each returned. *)
Definition summarizer_events (tr : list Event)
  : list (SummarizerCall * result SummarizerOutput) :=
  omap (fun ev => match ev with EvSummarize c r => Some (c, r) | _ => None end) tr.

(** What [summarizer(...)[0]["summary_text"]] evaluates to, given what
    the call returned or raised. *)
Definition outcome (r : result SummarizerOutput) : result pystr :=
  out ← r; first_summary_text out.

(** ** The handler, as a computation over the world *)

Section Handler.
Context `{Backend}.

(** A computation changes the world and returns a value or raises. *)
Definition M (A : Type) : Type := World -> result A * World.

#[export] Instance M_ret : MRet M := fun A a w => (Ok a, w).

#[export] Instance M_bind : MBind M := fun A B k m w =>
  match m w with
  | (Ok a, w') => k a w'
  | (Raise e, w') => (Raise e, w')
  end.

(** A pure step that may raise. *)
Definition lift {A} (r : result A) : M A := fun w => (r, w).

(** [try: body / except Exception as e: handler(e)] *)
Definition try_except {A} (body : M A) (handler : Exc -> M A) : M A :=
  fun w =>
    match body w with
    | (Ok a, w') => (Ok a, w')
    | (Raise e, w') => handler e w'
    end.

(** [try: body / finally: cleanup] *)
Definition try_finally {A} (body : M A) (cleanup : M unit) : M A :=
  fun w =>
    let '(r, w') := body w in
    match cleanup w' with
    | (Ok _, w'') => (r, w'')
    | (Raise e, w'') => (Raise e, w'')
    end.

(** [[f(x) for x in l]]: left to right, stopping at the first
    exception. *)
Fixpoint for_each {A B} (f : A -> M B) (l : list A) : M (list B) :=
  match l with
  | [] => mret []
  | x :: l' => y ← f x; ys ← for_each f l'; mret (y :: ys)
  end.

Definition emit (e : Event) : M unit :=
  fun w => (Ok tt, {| rng := rng w; clock := clock w; store := store w;
                      trace := trace w ++ [e] |}).

(** [logger.info], [logger.warning], [logger.error] *)
Definition log (level : LogLevel) (msg : pystr) : M unit := emit (EvLog level msg).

(** [datetime.utcnow()] *)
Definition utcnow : M Z := fun w => (Ok (clock w), w).

(** [tokenizer.encode(text, truncation=False)] *)
Definition encode (text : pystr) : M (list Z) :=
  emit (EvTokenize text);; lift (tokenizer_encode text).

(** One call of the model: it consumes sampling state and is
    recorded with its outcome. *)
Definition call_summarizer (c : SummarizerCall) : M SummarizerOutput :=
  fun w =>
    let '(r, g) := summarizer c (rng w) in
    (r, {| rng := g; clock := clock w; store := store w;
           trace := trace w ++ [EvSummarize c r] |}).

(** [summarizer(...)[0]["summary_text"]] *)
Definition summary_text (c : SummarizerCall) : M pystr :=
  out ← call_summarizer c;
  lift (first_summary_text out).

(** [record.save()]: the record joins the store, or the store raises
    and keeps what it had. *)
Definition save (r : SummaryRecord) : M unit :=
  fun w =>
    match store_refuses r (store w) with
    | Some e => (Raise e, w)
    | None => (Ok tt, {| rng := rng w; clock := clock w;
                         store := store w ++ [r];
                         trace := trace w ++ [EvSave r] |})
    end.

(** [summarize_combined_chunks] (app.py, lines 71-83) *)
Definition summarize_combined_chunks (chunks : list pystr)
    (preset_max preset_min : Z) (mode : PyVal) : M pystr :=
  let combined_summary := join (str " ") chunks in
  summary_text (combined_call combined_summary preset_max preset_min mode).

(** Lines 107-138: the bounds, the token count and the summary, by
    the direct call or by chunks. *)
Definition produce_summary (text : pystr) (length mode : PyVal) : M (pystr * Z) :=
  '(preset_min, preset_max) ← lift (dict_get LENGTH_PRESETS length (50, 100));
  tokens ← encode text;
  let input_tokens := len tokens in
  log INFO (str "Received text with " ++ fmt input_tokens ++ str " tokens.");;
  if MAX_TOKENS <? input_tokens
  then
    log WARNING (str "Input exceeds " ++ fmt MAX_TOKENS
                 ++ str " tokens. Chunking the text.");;
    chunks ← lift (chunk_text text 700 100);
    partials ← for_each
                 (fun chunk => summary_text (chunk_call chunk preset_max preset_min))
                 chunks;
    summary ← summarize_combined_chunks partials preset_max preset_min mode;
    mret (summary, input_tokens)
  else
    summary ← summary_text (direct_call text preset_max preset_min mode);
    mret (summary, input_tokens).

(** The body of the [try] (lines 106-167). *)
Definition summarize_try (text : pystr) (length mode : PyVal) : M Response :=
  '(summary, input_tokens) ← produce_summary text length mode;
  let title := make_title summary in
  now ← utcnow;
  save {| rec_text := text; rec_summary := summary; rec_title := title;
          rec_createdAt := now; rec_success := true; rec_error := str "" |};;
  log INFO (str "Summary generated successfully for text of length "
            ++ fmt (len text) ++ str ".");;
  mret (success title summary (len (split text)) (len (split summary)) input_tokens).

(** The [except] clauses (lines 169-175). *)
Definition summarize_except (e : Exc) : M Response :=
  if is_IndexError e
  then log ERROR (str "IndexError: " ++ exc_msg e);;
       mret (server_error (str "Index error during summarization."))
  else log ERROR (str "Error: " ++ exc_msg e);;
       mret (server_error (exc_msg e)).

(** [summarize()] (app.py, lines 88-178) on the JSON body [data].  An
    exception that leaves it is one the framework has to answer: past
    line 99 [text] is truthy, and [text.split()] on line 102, outside
    the [try], raises unless it is a [str]. *)
Definition summarize (data : gmap (list N) PyVal) : M Response :=
  let text := default (PStr (str "")) (data !! str "text") in
  let length := default (PStr (str "medium")) (data !! str "length") in
  let mode := default (PStr (str "reliable")) (data !! str "mode") in
  log INFO (str "Summarization request initiated.");;
  if negb (truthy text)
  then
    log ERROR (str "No input text provided.");;
    mret bad_request
  else
    match text with
    | PStr text =>
        (if len (split text) <? 10
         then log WARNING (str "Short input received. The summary might not be accurate.")
         else mret tt);;
        try_finally
          (try_except (summarize_try text length mode) summarize_except)
          (log INFO (str "Summarization request completed."))
    | _ => lift (Raise (attribute_error text (str "split")))
    end.

(** The world with more events in its trace. *)
Definition record_events (evs : list Event) (w : World) : World :=
  {| rng := rng w; clock := clock w; store := store w;
     trace := trace w ++ evs |}.

(** The world once the summarizer has answered the call [c]. *)
Definition after_call (c : SummarizerCall) (w : World) : World :=
  {| rng := (summarizer c (rng w)).2; clock := clock w; store := store w;
     trace := trace w ++ [EvSummarize c (summarizer c (rng w)).1] |}.

(** A computation that leaves the store and the clock alone, adds to
    the trace without saving, and whose result is the exception of the
    last call of the summarizer whenever that call did not produce a
    summary. *)
Definition quiet {A} (m : M A) : Prop :=
  forall w, exists tr,
    trace (m w).2 = trace w ++ tr ∧
    store (m w).2 = store w ∧
    clock (m w).2 = clock w ∧
    saved_records tr = [] ∧
    (forall c out e,
        last (summarizer_events tr) = Some (c, out) ->
        outcome out = Raise e -> (m w).1 = Raise e).

End Handler.

(** ** A stand-in backend *)

(** A backend for running the handler on concrete requests: 400 tokens a
    word, a model given as a function of the call alone, and a store that
    accepts every record. *)
Definition stub_backend (model : SummarizerCall -> result SummarizerOutput) : Backend :=
  {| Rng := unit;
     tokenizer_encode := fun text => Ok (repeat 0 (400 * length (split text))%nat);
     summarizer := fun c g => (model c, g);
     store_refuses := fun _ _ => None |}.

(** A model that answers with the first two words of its input. *)
Definition two_words (c : SummarizerCall) : result SummarizerOutput :=
  Ok [ <[str "summary_text" := join (str " ") (slice (split (call_text c)) 0 2)]> ∅ ].

(** A model that fails on every call with the given exception. *)
Definition failing (e : Exc) (c : SummarizerCall) : result SummarizerOutput := Raise e.

(** The stand-in backend with the two-word model. *)
Definition stub : Backend := stub_backend two_words.

(** The world before the first request. *)
Definition fresh `{Backend} (g : Rng) : World :=
  {| rng := g; clock := 0; store := []; trace := [] |}.

(** ** Vocabulary of the statements *)

(** A word: not empty and free of white space. *)
Definition word (w : pystr) : Prop :=
  w ≠ [] ∧ Forall (fun c => isspace c = false) w.

(** The response of the [except] clauses to the exception [e]. *)
Definition error_response (e : Exc) : Response :=
  if is_IndexError e
  then server_error (str "Index error during summarization.")
  else server_error (exc_msg e).

(** A text of [n] words [w w ... w]. *)
Definition text_of_words (n : nat) : pystr := join (str " ") (repeat (str "w") n).

(** A request body with the three fields given as strings. *)
Definition request (text length mode : string) : gmap (list N) PyVal :=
  <[str "text" := PStr (str text)]>
    (<[str "length" := PStr (str length)]>
       (<[str "mode" := PStr (str mode)]> ∅)).

(** The edge case of the chunker as the specification words it: a text
    of fewer than [max_words] words gives one chunk, the text itself. *)
Definition one_chunk_equal_to_text (text : pystr) (max_words overlap : Z) : Prop :=
  len (split text) < max_words -> chunk_text text max_words overlap = Ok [text].

(** The overlap guarantee as the specification words it: two consecutive
    chunks share exactly [overlap] words, unless the second one is the
    final chunk. *)
Definition overlap_except_final (text : pystr) (max_words overlap : Z) : Prop :=
  forall ws (k : nat) w1 w2,
    chunk_windows text max_words overlap = Ok ws ->
    ws !! k = Some w1 -> ws !! S k = Some w2 ->
    (S (S k) < length ws)%nat ->
    shared w1 w2 = overlap.

(** The fallback of the title as the specification words it: when the
    first twelve words make an empty string, the title is the literal. *)
Definition fallback_title_is_literal (summary : pystr) : Prop :=
  join (str " ") (take 12 (split summary)) = [] ->
  make_title summary = str "Untitled Summary".

(** [hash(v)] succeeds. *)
Definition hashable (v : PyVal) : bool :=
  match v with
  | PList _ | PDict _ => false
  | _ => true
  end.

(** The bounds [(preset_min, preset_max)] that lines 91 and 107-111 give
    the request [data]. *)
Definition request_bounds (data : gmap (list N) PyVal) : result (Z * Z) :=
  dict_get LENGTH_PRESETS (default (PStr (str "medium")) (data !! str "length")) (50, 100).

(** The bounds the specification lists for a length: those of the three
    known names, and those of medium for any other or for none. *)
Definition specified_bounds (length : option PyVal) : Z * Z :=
  match length with
  | Some (PStr s) =>
      if decide (s = str "short") then (15, 30)
      else if decide (s = str "long") then (100, 180)
      else (50, 100)
  | _ => (50, 100)
  end.

(** The sampling keywords of a call: 5 beams, temperature 1.2, sampling
    exactly when the mode is the string ["creative"], and the given
    top-k and top-p. *)
Definition sampling_setting (c : SummarizerCall) (mode : PyVal) (k : Z) (p : Q) : Prop :=
  num_beams c = Some 5 ∧ temperature c = Some 1.2%Q ∧
  (do_sample c = true <-> mode = PStr (str "creative")) ∧
  top_k c = Some k ∧ top_p c = Some p.

(** Two calls that agree on every keyword other than top-k and top-p. *)
Definition same_but_breadth (d c : SummarizerCall) : Prop :=
  max_length d = max_length c ∧ min_length d = min_length c ∧
  num_beams d = num_beams c ∧ do_sample d = do_sample c ∧
  temperature d = temperature c.

(** An event that, if it is a call of the model, gives it the bounds
    [b = (min, max)]. *)
Definition call_bounds (b : Z * Z) (ev : Event) : Prop :=
  match ev with
  | EvSummarize c _ => (min_length c, max_length c) = b
  | _ => True
  end.

(** The log entry of the [except] clauses for the exception [e]. *)
Definition error_log (e : Exc) : Event :=
  if is_IndexError e
  then EvLog ERROR (str "IndexError: " ++ exc_msg e)
  else EvLog ERROR (str "Error: " ++ exc_msg e).

(** The record of lines 148-154 for a text and its summary. *)
Definition new_record (text summary : pystr) (now : Z) : SummaryRecord :=
  {| rec_text := text; rec_summary := summary; rec_title := make_title summary;
     rec_createdAt := now; rec_success := true; rec_error := str "" |}.

(** The body of lines 161-167 for a text and its summary. *)
Definition success_response (text summary : pystr) (input_tokens : Z) : Response :=
  success (make_title summary) summary (len (split text)) (len (split summary))
          input_tokens.

(** The log entries up to the [try], for a text that is a [str]. *)
Definition opening_logs (text : pystr) : list Event :=
  EvLog INFO (str "Summarization request initiated.")
  :: (if len (split text) <? 10
      then [EvLog WARNING (str "Short input received. The summary might not be accurate.")]
      else []).

(** The log entries of the pipeline before its first call of the model. *)
Definition pipeline_logs (text : pystr) (tokens : list Z) : list Event :=
  [EvTokenize text;
   EvLog INFO (str "Received text with " ++ fmt (len tokens) ++ str " tokens.")]
  ++ (if MAX_TOKENS <? len tokens
      then [EvLog WARNING (str "Input exceeds " ++ fmt MAX_TOKENS
                           ++ str " tokens. Chunking the text.")]
      else []).

Section Worlds.
Context `{Backend}.

(** The world once the record [r] is stored and [evs] are logged. *)
Definition stored (r : SummaryRecord) (evs : list Event) (w : World) : World :=
  {| rng := rng w; clock := clock w; store := store w ++ [r];
     trace := trace w ++ EvSave r :: evs |}.

(** A computation whose result does not depend on the world it runs in. *)
Definition deterministic {A} (m : M A) : Prop :=
  forall w1 w2, (m w1).1 = (m w2).1.

(** A capability that answers a call made without sampling the same way
    whatever its sampling state. *)
Definition deterministic_capability : Prop :=
  forall c g1 g2, do_sample c = false -> (summarizer c g1).1 = (summarizer c g2).1.


End Worlds.

(** ** Vocabulary of the further properties *)

(** The log entries that frame a request, and the advisory one. *)
Definition initiated : Event := EvLog INFO (str "Summarization request initiated.").
Definition completed : Event := EvLog INFO (str "Summarization request completed.").
Definition short_warning : Event :=
  EvLog WARNING (str "Short input received. The summary might not be accurate.").

(** The events that lines 107-138 can add to the trace. *)
Definition pipeline_event (ev : Event) : Prop :=
  match ev with
  | EvTokenize _ | EvSummarize _ _ => True
  | EvLog INFO msg =>
      exists n, msg = str "Received text with " ++ fmt n ++ str " tokens."
  | EvLog WARNING msg =>
      msg = str "Input exceeds " ++ fmt MAX_TOKENS ++ str " tokens. Chunking the text."
  | _ => False
  end.

(** The request carries a text that passes lines 97-102. *)
Definition valid_text (data : gmap (list N) PyVal) (t : pystr) : Prop :=
  data !! str "text" = Some (PStr t) ∧ t ≠ [].

Section Emits.
Context `{Backend}.

(** A computation that adds to the trace only events that satisfy [P]. *)
Definition emits (P : Event -> Prop) {A} (m : M A) : Prop :=
  forall w, exists tr, trace (m w).2 = trace w ++ tr ∧ Forall P tr.

End Emits.

(** A backend like the stand-in one whose store refuses every record
    with the given exception. *)
Definition refusing_backend (e : Exc) : Backend :=
  {| Rng := unit;
     tokenizer_encode := fun text => Ok (repeat 0 (400 * length (split text))%nat);
     summarizer := fun c g => (two_words c, g);
     store_refuses := fun _ _ => Some e |}.

(** A backend like the stand-in one whose tokenizer raises the given
    exception. *)
Definition untokenizing_backend (e : Exc) : Backend :=
  {| Rng := unit;
     tokenizer_encode := fun text => Raise e;
     summarizer := fun c g => (two_words c, g);
     store_refuses := fun _ _ => None |}.

(** ** Configuration (config.py, and app.py lines 33-40) *)

(** What the modules use of the Python runtime beyond the functions
    modelled above: [str.lower] on a string that is not ASCII, [int] on
    a string, and whether the [strftime] of the platform pads [%Y] to
    four digits. *)
Class Runtime := {
  unicode_lower : pystr -> pystr;
  py_int : pystr -> result Z;
  strftime_pads_year : bool
}.

(** [s.split(sep)] for a separator of one character: each occurrence of
    the separator ends a field, and empty fields are kept. *)
Fixpoint split_on_from (sep : N) (cur s : pystr) : list pystr :=
  match s with
  | [] => [rev cur]
  | c :: s' =>
      if (c =? sep)%N
      then rev cur :: split_on_from sep [] s'
      else split_on_from sep (c :: cur) s'
  end.

Definition split_on (sep : N) (s : pystr) : list pystr := split_on_from sep [] s.

(** [s.lower()]: on an ASCII string the letters A to Z are moved to a to
    z; any other string is the runtime's business. *)
Definition ascii_lower (c : N) : N :=
  if ((65 <=? c) && (c <=? 90))%N then (c + 32)%N else c.

Definition is_ascii (s : pystr) : bool := forallb (fun c => (c <? 128)%N) s.

Definition lower `{Runtime} (s : pystr) : pystr :=
  if is_ascii s then map ascii_lower s else unicode_lower s.

(** [os.getenv(name, default)] on the environment, as it is once
    [load_dotenv()] has run. *)
Definition getenv (env : gmap (list N) (list N)) (name dflt : pystr) : pystr :=
  default dflt (env !! name).

(** [class Config] (config.py, lines 7-18) *)
Record Config := mkConfig {
  PROJECT_NAME : pystr;
  DEBUG : bool;
  FLASK_PORT : Z;
  MONGO_DBNAME : pystr;
  MONGO_DBURI : pystr;
  BASE_URL : pystr;
  CORS_ALLOWED_ORIGINS : list pystr
}.

Section Configuration.
Context `{Runtime}.

(** Line 10 *)
Definition config_DEBUG (env : gmap (list N) (list N)) : bool :=
  bool_decide (lower (getenv env (str "DEBUG") (str "False")) = str "true").

(** Line 11: [int(os.getenv("FLASK_PORT", 5000))] *)
Definition config_FLASK_PORT (env : gmap (list N) (list N)) : result Z :=
  match env !! str "FLASK_PORT" with
  | Some v => py_int v
  | None => Ok 5000
  end.

(** Line 18 *)
Definition config_CORS_ALLOWED_ORIGINS (env : gmap (list N) (list N)) : list pystr :=
  split_on 44 (getenv env (str "CORS_ALLOWED_ORIGINS") (str "")).

(** [config = Config()]: the class body, which raises if the port does. *)
Definition load_config (env : gmap (list N) (list N)) : result Config :=
  port ← config_FLASK_PORT env;
  Ok {| PROJECT_NAME := getenv env (str "PROJECT_NAME") (str "AI Summarizer");
        DEBUG := config_DEBUG env;
        FLASK_PORT := port;
        MONGO_DBNAME := getenv env (str "MONGO_DBNAME") (str "summarizer_db");
        MONGO_DBURI := getenv env (str "MONGO_DBURI") (str "mongodb://localhost:27017");
        BASE_URL := getenv env (str "BASE_URL") (str "http://localhost:9000");
        CORS_ALLOWED_ORIGINS := config_CORS_ALLOWED_ORIGINS env |}.

End Configuration.

(** What app.py sets up from the configuration and the environment
    (lines 33-40, 47 and 183). *)
Record AppSettings := mkAppSettings {
  app_DEBUG : bool;
  app_MONGO_DBNAME : option pystr;
  app_MONGO_URI : option pystr;
  cors_origins : list pystr;
  cors_supports_credentials : bool;
  SESSION_COOKIE_SAMESITE : pystr;
  SESSION_COOKIE_SECURE : bool;
  listen_host : pystr;
  listen_port : Z
}.

Definition app_settings (env : gmap (list N) (list N)) (config : Config) : AppSettings :=
  {| app_DEBUG := DEBUG config;
     app_MONGO_DBNAME := env !! str "MONGO_DBNAME";
     app_MONGO_URI := env !! str "MONGO_DBURI";
     cors_origins := CORS_ALLOWED_ORIGINS config;
     cors_supports_credentials := true;
     SESSION_COOKIE_SAMESITE := str "None";
     SESSION_COOKIE_SECURE := true;
     listen_host := str "0.0.0.0";
     listen_port := FLASK_PORT config |}.

(** A runtime for running the configuration on concrete environments:
    it is only ever asked about ASCII strings and about the port
    ["8080"]. *)
Definition stub_runtime : Runtime :=
  {| unicode_lower := fun s => s;
     py_int := fun s => if bool_decide (s = str "8080") then Ok 8080
                        else Raise (mkExc ValueError (str "invalid literal for int()"));
     strftime_pads_year := false |}.

(** ** The JSON encoder (app.py, lines 22-28) *)

(** The time zone of a [datetime] that has one: which [tzinfo] object it
    carries, and what [utcoffset()] gives for this datetime, in
    microseconds. *)
Record tzinfo := mkTzinfo {
  tz_object : N;
  tz_utcoffset : option Z
}.

(** A [datetime], by its fields; [dt_tzinfo] is [None] for a naive one,
    such as [datetime.utcnow()] of line 53 returns. *)
Record datetime := mkDatetime {
  dt_year : Z;
  dt_month : Z;
  dt_day : Z;
  dt_hour : Z;
  dt_minute : Z;
  dt_second : Z;
  dt_microsecond : Z;
  dt_tzinfo : option tzinfo
}.

(** The ranges that every [datetime] object keeps its fields in. *)
Definition valid_datetime (d : datetime) : Prop :=
  1 <= dt_year d <= 9999 ∧ 1 <= dt_month d <= 12 ∧ 1 <= dt_day d <= 31 ∧
  0 <= dt_hour d <= 23 ∧ 0 <= dt_minute d <= 59 ∧ 0 <= dt_second d <= 59 ∧
  0 <= dt_microsecond d <= 999999.

(** The character of a decimal digit. *)
Definition digit (n : Z) : N := Z.to_N (48 + n).

(** A number below 100 on two digits, as [%m], [%d], [%H], [%M] and
    [%S] print it, and a number below 10000 on four. *)
Definition pad2 (n : Z) : pystr := [digit (n / 10); digit (n mod 10)].

Definition pad4 (n : Z) : pystr :=
  [digit (n / 1000); digit (n / 100 mod 10); digit (n / 10 mod 10); digit (n mod 10)].

(** [%Y]: four digits from the year 1000 on; before that, four digits or
    fewer, as the platform has it. *)
Definition year_field `{Runtime} (y : Z) : pystr :=
  if strftime_pads_year || (1000 <=? y) then pad4 y else fmt y.

(** [d.strftime('%Y-%m-%dT%H:%M:%SZ')]: the format names no time zone
    field, and its [Z] is a literal. *)
Definition strftime_iso `{Runtime} (d : datetime) : pystr :=
  year_field (dt_year d) ++ str "-" ++ pad2 (dt_month d) ++ str "-" ++ pad2 (dt_day d)
  ++ str "T" ++ pad2 (dt_hour d) ++ str ":" ++ pad2 (dt_minute d) ++ str ":"
  ++ pad2 (dt_second d) ++ str "Z".

(** The objects the encoder is asked about: an [ObjectId], given by
    what [str] makes of it, a [datetime], or anything else. *)
Inductive PyObject (Other : Type) :=
| AnObjectId (text : pystr)
| ADatetime (d : datetime)
| Another (o : Other).
Arguments AnObjectId {Other} text.
Arguments ADatetime {Other} d.
Arguments Another {Other} o.

(** [JSONEncoder.default].  Its last line calls
    [DefaultJSONProvider.default(self, o)]; that attribute is a static
    method of one argument, so the call with two raises. *)
Definition JSONEncoder_default `{Runtime} {Other : Type} (o : PyObject Other)
  : result PyVal :=
  match o with
  | AnObjectId text => Ok (PStr text)
  | ADatetime d => Ok (PStr (strftime_iso d))
  | Another _ =>
      Raise (mkExc TypeError
               (str "_default() takes 1 positional argument but 2 were given"))
  end.

(** [a < b] on strings. *)
Fixpoint str_ltb (a b : pystr) : bool :=
  match a, b with
  | _, [] => false
  | [], _ :: _ => true
  | x :: a', y :: b' => (x <? y)%N || ((x =? y)%N && str_ltb a' b')
  end.

(** Two datetimes that show the same second. *)
Definition same_second (d1 d2 : datetime) : Prop :=
  dt_year d1 = dt_year d2 ∧ dt_month d1 = dt_month d2 ∧ dt_day d1 = dt_day d2 ∧
  dt_hour d1 = dt_hour d2 ∧ dt_minute d1 = dt_minute d2 ∧ dt_second d1 = dt_second d2.

(** The six fields of one datetime come before those of another, read
    from the year down to the second. *)
Definition earlier_second (d1 d2 : datetime) : Prop :=
  dt_year d1 < dt_year d2 ∨ dt_year d1 = dt_year d2 ∧
  (dt_month d1 < dt_month d2 ∨ dt_month d1 = dt_month d2 ∧
   (dt_day d1 < dt_day d2 ∨ dt_day d1 = dt_day d2 ∧
    (dt_hour d1 < dt_hour d2 ∨ dt_hour d1 = dt_hour d2 ∧
     (dt_minute d1 < dt_minute d2 ∨ dt_minute d1 = dt_minute d2 ∧
      dt_second d1 < dt_second d2)))).

(** *** The order of datetimes *)

(** [d.replace(microsecond=us)] *)
Definition replace_microsecond (d : datetime) (us : Z) : datetime :=
  {| dt_year := dt_year d; dt_month := dt_month d; dt_day := dt_day d;
     dt_hour := dt_hour d; dt_minute := dt_minute d; dt_second := dt_second d;
     dt_microsecond := us; dt_tzinfo := dt_tzinfo d |}.

(** [d.utcoffset()] *)
Definition utcoffset (d : datetime) : option Z :=
  tz ← dt_tzinfo d; tz_utcoffset tz.

(** The fields in the order in which a datetime stores them. *)
Definition datetime_fields (d : datetime) : list Z :=
  [dt_year d; dt_month d; dt_day d; dt_hour d; dt_minute d; dt_second d;
   dt_microsecond d].

(** The first difference decides. *)
Fixpoint lex_ltb (l1 l2 : list Z) : bool :=
  match l1, l2 with
  | x :: l1', y :: l2' => (x <? y) || ((x =? y) && lex_ltb l1' l2')
  | _, _ => false
  end.

(** The proleptic Gregorian ordinal of a date, as the [datetime] module
    computes it. *)
Definition is_leap (y : Z) : bool :=
  (y mod 4 =? 0) && (negb (y mod 100 =? 0) || (y mod 400 =? 0)).

Definition days_before_year (y : Z) : Z :=
  let y := y - 1 in y * 365 + y / 4 - y / 100 + y / 400.

Definition days_before_month (y m : Z) : Z :=
  nth (Z.to_nat (m - 1)) [0; 31; 59; 90; 120; 151; 181; 212; 243; 273; 304; 334] 0
  + (if (2 <? m) && is_leap y then 1 else 0).

Definition ymd2ord (y m d : Z) : Z :=
  days_before_year y + days_before_month y m + d.

(** The fields as a number of microseconds. *)
Definition microseconds (d : datetime) : Z :=
  ((ymd2ord (dt_year d) (dt_month d) (dt_day d) * 86400
    + dt_hour d * 3600 + dt_minute d * 60 + dt_second d) * 1000000)
  + dt_microsecond d.

(** Two datetimes that carry the same [tzinfo] object, or none. *)
Definition same_tzinfo (d1 d2 : datetime) : bool :=
  match dt_tzinfo d1, dt_tzinfo d2 with
  | None, None => true
  | Some tz1, Some tz2 => (tz_object tz1 =? tz_object tz2)%N
  | _, _ => false
  end.

(** Two datetimes that [<] compares by their fields: they carry the same
    [tzinfo] object or none, or their offsets from UTC are equal. *)
Definition compared_by_fields (d1 d2 : datetime) : bool :=
  same_tzinfo d1 d2 || bool_decide (utcoffset d1 = utcoffset d2).

(** [d1 < d2]: by the fields when the two are compared by their fields,
    by the instants when both have an offset, and refused for a naive
    datetime against an aware one. *)
Definition datetime_lt (d1 d2 : datetime) : result bool :=
  if compared_by_fields d1 d2
  then Ok (lex_ltb (datetime_fields d1) (datetime_fields d2))
  else
    match utcoffset d1, utcoffset d2 with
    | Some off1, Some off2 =>
        Ok (microseconds d1 - off1 <? microseconds d2 - off2)
    | _, _ =>
        Raise (mkExc TypeError
                 (str "can't compare offset-naive and offset-aware datetimes"))
    end.

(** * Properties *)

(** ** Splitting and joining *)

Lemma rev_nil_inv {A} (l : list A) : rev l = [] -> l = [].
Proof.
  intros Hr. rewrite <- (rev_involutive l), Hr. done.
Qed.

Lemma split_from_nonspace w cur s :
  Forall (fun c => isspace c = false) w ->
  split_from cur (w ++ s) = split_from (rev w ++ cur) s.
Proof.
  revert cur. induction w as [|c w IH]; intros cur Hw; [done|].
  inversion_clear Hw as [|? ? Hc Hw']. simpl. rewrite Hc, IH by done.
  by rewrite <- app_assoc.
Qed.

Lemma split_from_space c cur s :
  isspace c = true -> cur ≠ [] ->
  split_from cur (c :: s) = rev cur :: split_from [] s.
Proof. intros Hc Hcur. simpl. rewrite Hc. by destruct cur. Qed.

Lemma split_from_words cur s :
  Forall (fun c => isspace c = false) cur -> Forall word (split_from cur s).
Proof.
  revert cur. induction s as [|c s IH]; intros cur Hcur; simpl.
  - destruct cur as [|c' cur'] eqn:E; [constructor|].
    rewrite <- E in *. constructor; [|constructor]. split.
    + intros Hr. apply rev_nil_inv in Hr. by subst.
    + by apply Forall_rev.
  - destruct (isspace c) eqn:Hc.
    + destruct cur as [|c' cur'] eqn:E; [by apply IH|].
      rewrite <- E in *. constructor; [|by apply IH]. split.
      * intros Hr. apply rev_nil_inv in Hr. by subst.
      * by apply Forall_rev.
    + apply IH. by constructor.
Qed.

(** Every element of [text.split()] is a word. *)
Lemma split_words s : Forall word (split s).
Proof. apply split_from_words. constructor. Qed.

(** Splitting words joined by single spaces gives the words back. *)
Lemma split_join ws : Forall word ws -> split (join (str " ") ws) = ws.
Proof.
  induction ws as [|w ws IH]; intros Hws; [done|].
  inversion_clear Hws as [|? ? [Hne Hw] Hws'].
  assert (Hrev : rev w ≠ []).
  { intros Hr. by apply rev_nil_inv in Hr. }
  destruct ws as [|w' ws'].
  - unfold split. simpl. rewrite <- (app_nil_r w) at 1.
    rewrite split_from_nonspace by done. rewrite app_nil_r. simpl.
    destruct (rev w) eqn:E; [done|]. by rewrite <- E, rev_involutive.
  - unfold split. change (join (str " ") (w :: w' :: ws'))
      with (w ++ 32%N :: join (str " ") (w' :: ws')).
    rewrite split_from_nonspace by done. rewrite app_nil_r.
    rewrite split_from_space by done. rewrite rev_involutive.
    f_equal. by apply IH.
Qed.

(** A chunk of one window is already in the form the chunker gives. *)
Lemma split_join_split s : split (join (str " ") (split s)) = split s.
Proof. apply split_join, split_words. Qed.

Lemma join_nil_inv ws : Forall word ws -> join (str " ") ws = [] -> ws = [].
Proof.
  intros Hws Hj. destruct ws as [|w ws]; [done|].
  inversion_clear Hws as [|? ? [Hne _] _].
  destruct ws; simpl in Hj; [done|]. by destruct w.
Qed.

Lemma join_snoc ws w x :
  join (str " ") (ws ++ [w]) ++ x = join (str " ") (ws ++ [w ++ x]).
Proof.
  induction ws as [|w' ws IH]; [done|].
  destruct ws as [|w'' ws'].
  - simpl. by rewrite <- !app_assoc.
  - change ((w' :: w'' :: ws') ++ [w]) with (w' :: (w'' :: ws') ++ [w]).
    change ((w' :: w'' :: ws') ++ [w ++ x]) with (w' :: (w'' :: ws') ++ [w ++ x]).
    change (join (str " ") (w' :: (w'' :: ws') ++ [w]))
      with (w' ++ str " " ++ join (str " ") ((w'' :: ws') ++ [w])).
    change (join (str " ") (w' :: (w'' :: ws') ++ [w ++ x]))
      with (w' ++ str " " ++ join (str " ") ((w'' :: ws') ++ [w ++ x])).
    by rewrite <- IH, <- !app_assoc.
Qed.

(** ** Slices and ranges *)

Lemma slice_take_drop {A} (l : list A) i j :
  0 <= i -> i <= j ->
  slice l i j = take (Z.to_nat (j - i)) (drop (Z.to_nat i) l).
Proof.
  intros Hi Hij. unfold slice, clamp_index, len.
  destruct (Z.ltb_spec i 0); [lia|]. destruct (Z.ltb_spec j 0); [lia|].
  destruct (Z_le_gt_dec i (Z.of_nat (length l))) as [Hin|Hin].
  - rewrite (Z.min_l i) by lia.
    destruct (Z_le_gt_dec j (Z.of_nat (length l))) as [Hjn|Hjn].
    + by rewrite (Z.min_l j) by lia.
    + rewrite (Z.min_r j) by lia.
      rewrite !take_ge; [done| |]; rewrite length_drop; lia.
  - rewrite (Z.min_r i), (Z.min_r j) by lia.
    rewrite (drop_ge l (Z.to_nat i)) by lia.
    rewrite Z.sub_diag. simpl. by rewrite take_nil.
Qed.

Lemma slice_prefix {A} (l : list A) j :
  0 <= j -> slice l 0 j = take (Z.to_nat j) l.
Proof. intros Hj. rewrite slice_take_drop by lia. by rewrite Z.sub_0_r. Qed.

(** The number of starts [0, step, 2 * step, ...] below [n]. *)
Lemma range_count n step k :
  0 < step -> 0 <= n -> 0 <= k ->
  k < (n + step - 1) / step <-> k * step < n.
Proof.
  intros Hs Hn Hk. split.
  - intros Hlt.
    assert (step * (k + 1) <= n + step - 1); [|lia].
    etrans; [|apply (Z.mul_div_le _ step); lia].
    apply Z.mul_le_mono_nonneg_l; lia.
  - intros Hlt. assert (k + 1 <= (n + step - 1) / step); [|lia].
    apply Z.div_le_lower_bound; lia.
Qed.

Lemma range_pos n step :
  0 < step -> 0 <= n ->
  range 0 n step
  = Ok (map (fun k => Z.of_nat k * step)
            (seq 0 (Z.to_nat ((n + step - 1) / step)))).
Proof.
  intros Hs Hn. unfold range, range_len.
  destruct (Z.eqb_spec step 0); [lia|].
  destruct (Z.ltb_spec 0 step); [|lia].
  destruct (Z.ltb_spec 0 n).
  - replace (n + step - 1) with (n - 0 - 1 + 1 * step) by lia.
    rewrite Z.div_add by lia. done.
  - replace n with 0 by lia. rewrite Z.div_small by lia. done.
Qed.

(** ** The chunker *)

Lemma chunk_text_windows text mw ov :
  chunk_text text mw ov
  = match chunk_windows text mw ov with
    | Ok ws => Ok (map (fun w => join (str " ") w.2) ws)
    | Raise e => Raise e
    end.
Proof.
  unfold chunk_text, chunk_windows.
  destruct (range 0 (len (split text)) (mw - ov)); [|done].
  by rewrite map_map.
Qed.

(** With a positive step the chunker returns, and its [k]-th window
    starts at word [k * step] and holds the next [max_words] words, or
    those that are left. *)
Lemma chunk_windows_pos text mw ov :
  0 <= mw -> ov < mw ->
  chunk_windows text mw ov
  = Ok (map (fun k : nat =>
               (Z.of_nat k * (mw - ov),
                take (Z.to_nat mw)
                     (drop (Z.to_nat (Z.of_nat k * (mw - ov))) (split text))))
            (seq 0 (Z.to_nat ((len (split text) + (mw - ov) - 1) / (mw - ov))))).
Proof.
  intros Hmw Hov. unfold chunk_windows.
  rewrite range_pos by (unfold len; lia). rewrite map_map. f_equal.
  apply map_ext. intros k.
  assert (0 <= Z.of_nat k * (mw - ov)) by (apply Z.mul_nonneg_nonneg; lia).
  rewrite slice_take_drop by lia.
  do 3 f_equal. lia.
Qed.

Lemma chunk_windows_lookup text mw ov ws k w :
  0 <= mw -> ov < mw ->
  chunk_windows text mw ov = Ok ws ->
  ws !! k = Some w <->
  Z.of_nat k * (mw - ov) < len (split text) ∧
  w = (Z.of_nat k * (mw - ov),
       take (Z.to_nat mw)
            (drop (Z.to_nat (Z.of_nat k * (mw - ov))) (split text))).
Proof.
  intros Hmw Hov. rewrite chunk_windows_pos by done.
  intros [= <-]. rewrite list_lookup_fmap.
  pose proof (range_count (len (split text)) (mw - ov) (Z.of_nat k)) as Hc.
  split.
  - intros Hk. destruct (seq _ _ !! k) as [k'|] eqn:E; [|done].
    apply lookup_seq in E as [-> Hlt]. simpl in Hk. injection Hk as <-.
    split; [|done]. apply Hc; unfold len in *; lia.
  - intros [Hlt ->].
    assert (E : seq 0 (Z.to_nat ((len (split text) + (mw - ov) - 1) / (mw - ov)))
                !! k = Some k).
    { apply lookup_seq. split; [done|].
      assert (Z.of_nat k < (len (split text) + (mw - ov) - 1) / (mw - ov)); [|lia].
      apply Hc; unfold len in *; lia. }
    by rewrite E.
Qed.

(** The number of chunks is [len(words)] over the step, rounded up. *)
Lemma chunk_windows_length text mw ov ws :
  0 <= mw -> ov < mw ->
  chunk_windows text mw ov = Ok ws ->
  len ws = (len (split text) + (mw - ov) - 1) / (mw - ov).
Proof.
  intros Hmw Hov. rewrite chunk_windows_pos by done. intros [= <-].
  unfold len. rewrite length_map, length_seq.
  rewrite Z2Nat.id; [done|]. apply Z.div_pos; lia.
Qed.

(** A text of at least one and at most [max_words - overlap] words makes
    one chunk: its words joined by single spaces. *)
Lemma chunk_windows_single text mw ov :
  0 <= ov -> 0 < len (split text) <= mw - ov ->
  chunk_windows text mw ov = Ok [(0, split text)].
Proof.
  intros Hov [Hpos Hle]. rewrite chunk_windows_pos by lia.
  replace (len (split text) + (mw - ov) - 1)
    with (1 * (mw - ov) + (len (split text) - 1)) by lia.
  rewrite Z.div_add_l by lia. rewrite Z.div_small by lia. simpl.
  rewrite take_ge; [done|]. rewrite length_drop. unfold len in *. lia.
Qed.

(** C8 (amended).  For every text with at least one word and at most
    [max_words - overlap] words, where [0 <= overlap], the chunker
    produces exactly one chunk: the words of the text joined by single
    spaces.  That chunk is the text itself when the text is a sequence of
    words separated by single spaces. *)
Theorem chunk_text_single_chunk text mw ov :
  0 <= ov -> 0 < len (split text) <= mw - ov ->
  chunk_text text mw ov = Ok [join (str " ") (split text)] ∧
  (forall ws, Forall word ws -> text = join (str " ") ws ->
              chunk_text text mw ov = Ok [text]).
Proof.
  intros Hov Hn.
  assert (Hc : chunk_text text mw ov = Ok [join (str " ") (split text)]).
  { rewrite chunk_text_windows, chunk_windows_single by done. done. }
  split; [done|]. intros ws Hws ->. rewrite Hc.
  by rewrite split_join.
Qed.

Lemma chunk_text_single_chunk_witness :
  chunk_text (str "to be or not") 700 100 = Ok [str "to be or not"].
Proof.
  apply (chunk_text_single_chunk (str "to be or not") 700 100
           ltac:(lia) ltac:(vm_compute; split; [reflexivity|discriminate]))
    with (ws := [str "to"; str "be"; str "or"; str "not"]).
  - repeat constructor; by vm_compute.
  - reflexivity.
Defined.

(** C8, as stated, fails in three ways: 650 words under the defaults 700
    and 100 give two chunks, the second starting at word 600; a text
    with a double space comes back with a single one; and a text of
    white space alone has no words and gives no chunk. *)
Lemma one_chunk_equal_to_text_fails :
  ¬ one_chunk_equal_to_text (text_of_words 650) 700 100 ∧
  ¬ one_chunk_equal_to_text (str "a  b") 700 100 ∧
  ¬ one_chunk_equal_to_text (str " ") 700 100.
Proof.
  repeat split; intros Hclaim;
    (assert (Hc := Hclaim ltac:(by vm_compute)));
    vm_compute in Hc; discriminate Hc.
Qed.

Example chunk_text_650_words :
  (fun chunks => map (fun c => len (split c)) chunks)
    <$> (match chunk_text (text_of_words 650) 700 100 with
         | Ok chunks => Some chunks
         | Raise _ => None
         end)
  = Some [650; 50].
Proof. by vm_compute. Qed.

(** The [k]-th window in full: where it starts and how long it is. *)
Lemma chunk_windows_shape text mw ov ws (k : nat) win :
  0 <= mw -> ov < mw ->
  chunk_windows text mw ov = Ok ws ->
  ws !! k = Some win ->
  win.1 = Z.of_nat k * (mw - ov) ∧
  0 <= win.1 < len (split text) ∧
  win.2 = take (Z.to_nat mw) (drop (Z.to_nat win.1) (split text)) ∧
  len win.2 = Z.min mw (len (split text) - win.1).
Proof.
  intros Hmw Hov Hws Hk.
  apply (chunk_windows_lookup _ _ _ _ _ _ Hmw Hov Hws) in Hk as [Hlt ->].
  simpl. set (i := Z.of_nat k * (mw - ov)) in *.
  assert (0 <= i) by (apply Z.mul_nonneg_nonneg; lia).
  repeat split; [done..|].
  unfold len in *. rewrite length_take, length_drop. lia.
Qed.

(** Every word of the text lies in some window. *)
Lemma chunk_windows_cover text mw ov ws (j : nat) w :
  0 < mw -> 0 <= ov < mw ->
  chunk_windows text mw ov = Ok ws ->
  split text !! j = Some w ->
  exists (k : nat) win,
    ws !! k = Some win ∧
    win.1 <= Z.of_nat j < win.1 + len win.2 ∧
    win.2 !! Z.to_nat (Z.of_nat j - win.1) = Some w.
Proof.
  intros Hmw [Hov0 Hov] Hws Hj.
  assert (Hmw0 : 0 <= mw) by lia.
  pose proof (lookup_lt_Some _ _ _ Hj) as Hjn.
  set (step := mw - ov) in *.
  set (q := Z.of_nat j / step).
  assert (Hq0 : 0 <= q) by (apply Z.div_pos; lia).
  assert (Hlo : step * q <= Z.of_nat j) by (apply Z.mul_div_le; lia).
  assert (Hhi : Z.of_nat j < step * q + step).
  { pose proof (Z.div_mod (Z.of_nat j) step ltac:(lia)) as Hdm.
    pose proof (Z.mod_pos_bound (Z.of_nat j) step ltac:(lia)). fold q in Hdm. lia. }
  assert (Hk : Z.of_nat (Z.to_nat q) * (mw - ov) = step * q).
  { rewrite Z2Nat.id by done. fold step. lia. }
  exists (Z.to_nat q),
    (step * q, take (Z.to_nat mw) (drop (Z.to_nat (step * q)) (split text))).
  assert (Hin : ws !! Z.to_nat q
                = Some (step * q,
                        take (Z.to_nat mw) (drop (Z.to_nat (step * q)) (split text)))).
  { apply (chunk_windows_lookup text mw ov ws); [lia..|done|].
    rewrite Hk. split; [unfold len; lia|done]. }
  split; [done|].
  destruct (chunk_windows_shape _ _ _ _ _ _ Hmw0 Hov Hws Hin)
    as (_ & _ & _ & Hlen).
  simpl in *. split.
  - rewrite Hlen. unfold len. lia.
  - rewrite lookup_take_lt by lia. rewrite lookup_drop.
    rewrite <- Hj. f_equal. lia.
Qed.

(** A window holds words, so the chunk made of it splits back into it. *)
Lemma chunk_windows_words text mw ov ws win :
  0 <= mw -> ov < mw ->
  chunk_windows text mw ov = Ok ws ->
  win ∈ ws ->
  split (join (str " ") win.2) = win.2.
Proof.
  intros Hmw Hov Hws [k Hk]%list_elem_of_lookup_1.
  destruct (chunk_windows_shape _ _ _ _ _ _ Hmw Hov Hws Hk) as (_ & _ & -> & _).
  apply split_join. apply Forall_take, Forall_drop, split_words.
Qed.

(** Two consecutive windows have in common what remains of the first
    after its first [max_words - overlap] words: that is [overlap] words
    when the first window is full, and the words are the same ones. *)
Lemma chunk_windows_shared text mw ov ws (k : nat) w1 w2 :
  0 < mw -> 0 <= ov < mw ->
  chunk_windows text mw ov = Ok ws ->
  ws !! k = Some w1 -> ws !! S k = Some w2 ->
  shared w1 w2 = len w1.2 - (mw - ov) ∧
  0 < shared w1 w2 + (mw - ov) <= mw ∧
  take (Z.to_nat (shared w1 w2)) w2.2 = drop (Z.to_nat (mw - ov)) w1.2.
Proof.
  intros Hmw [Hov0 Hov] Hws H1 H2.
  assert (Hmw0 : 0 <= mw) by lia.
  destruct (chunk_windows_shape _ _ _ _ _ _ Hmw0 Hov Hws H1)
    as (Hs1 & Hr1 & He1 & Hl1).
  destruct (chunk_windows_shape _ _ _ _ _ _ Hmw0 Hov Hws H2)
    as (Hs2 & Hr2 & He2 & Hl2).
  assert (Hs : w2.1 = w1.1 + (mw - ov)) by lia.
  assert (Hsh : shared w1 w2 = len w1.2 - (mw - ov)) by (unfold shared; lia).
  split; [done|]. split; [lia|].
  rewrite Hsh, He1, He2, Hs.
  rewrite take_take.
  replace (drop (Z.to_nat (w1.1 + (mw - ov))) (split text))
    with (drop (Z.to_nat (mw - ov)) (drop (Z.to_nat w1.1) (split text)))
    by (rewrite drop_drop; f_equal; lia).
  set (l := drop (Z.to_nat w1.1) (split text)) in *.
  assert (Hl : len l = len (split text) - w1.1).
  { unfold l. unfold len in *. rewrite length_drop. lia. }
  rewrite take_drop_commute.
  f_equal.
  destruct (Z_le_gt_dec mw (len l)) as [Hfull|Hshort].
  - f_equal. rewrite He1 in Hl1. fold l in Hl1. lia.
  - rewrite !take_ge; [done|unfold len in *; lia|].
    rewrite He1 in Hl1. fold l in Hl1. unfold len in *. lia.
Qed.

(** When twice the overlap is at most one word more than a window, only
    the last pair of chunks can share fewer than [overlap] words: the
    third window from any point starts before the end of the text, which
    leaves the first a full window. *)
Lemma overlap_except_final_half text mw ov :
  0 < mw -> 0 <= ov < mw -> 2 * ov <= mw + 1 ->
  overlap_except_final text mw ov.
Proof.
  intros Hmw Hov Hhalf ws k w1 w2 Hws H1 H2 Hlast.
  destruct (lookup_lt_is_Some_2 ws (S (S k)) Hlast) as [w3 H3].
  assert (Hmw0 : 0 <= mw) by lia.
  destruct (chunk_windows_shape _ _ _ _ _ _ Hmw0 (proj2 Hov) Hws H1)
    as (Hs1 & _ & _ & Hl1).
  destruct (chunk_windows_shape _ _ _ _ _ _ Hmw0 (proj2 Hov) Hws H3)
    as (Hs3 & Hr3 & _ & _).
  destruct (chunk_windows_shared _ _ _ _ _ _ _ Hmw Hov Hws H1 H2) as (-> & _).
  lia.
Qed.

Lemma split_text_of_words n : split (text_of_words n) = repeat (str "w") n.
Proof.
  unfold text_of_words. apply split_join. apply Forall_forall.
  intros w ->%list_elem_of_In%repeat_spec. split; [done|].
  by repeat constructor.
Qed.

(** Past that bound the guarantee is lost on a text one word short of a
    window: its first chunk is not full, and it is followed by two more
    chunks at least. *)
Lemma overlap_except_final_tight mw ov :
  0 <= ov < mw -> mw + 2 <= 2 * ov ->
  ¬ overlap_except_final (text_of_words (Z.to_nat (mw - 1))) mw ov.
Proof.
  intros Hov Hpast Hclaim.
  set (text := text_of_words (Z.to_nat (mw - 1))) in *.
  assert (Hn : len (split text) = mw - 1).
  { unfold text. rewrite split_text_of_words. unfold len.
    rewrite repeat_length. lia. }
  assert (Hmw0 : 0 <= mw) by lia.
  destruct (chunk_windows text mw ov) as [ws|e] eqn:Hws.
  2: { rewrite chunk_windows_pos in Hws by lia. done. }
  assert (Hin : forall k : nat, (k <= 2)%nat ->
            ws !! k = Some (Z.of_nat k * (mw - ov),
                            take (Z.to_nat mw)
                                 (drop (Z.to_nat (Z.of_nat k * (mw - ov))) (split text)))).
  { intros k Hk. apply (chunk_windows_lookup text mw ov ws); [lia..|done|].
    split; [nia|done]. }
  pose proof (Hin 0%nat ltac:(lia)) as H0.
  pose proof (Hin 1%nat ltac:(lia)) as H1.
  pose proof (Hin 2%nat ltac:(lia)) as H2.
  pose proof (Hclaim ws 0%nat _ _ Hws H0 H1 (lookup_lt_Some _ _ _ H2)) as Hsh.
  assert (Hmw : 0 < mw) by lia.
  destruct (chunk_windows_shared _ _ _ _ _ _ _ Hmw Hov Hws H0 H1) as (Hsh' & _).
  destruct (chunk_windows_shape _ _ _ _ _ _ Hmw0 (proj2 Hov) Hws H0) as (_ & _ & _ & Hl).
  rewrite Hsh' in Hsh. cbn [fst snd] in Hl, Hsh. lia.
Qed.

(** C2 (amended).  For [0 < max_words] and [0 <= overlap < max_words] the
    chunker returns chunks such that: every word of the text is a word
    of some chunk; every chunk has at most [max_words] words; two
    consecutive chunks share the words of the earlier one past its first
    [max_words - overlap], which are exactly [overlap] words whenever
    the earlier chunk is a full window of [max_words] words; and when
    [2 * overlap <= max_words + 1] every two consecutive chunks share
    exactly [overlap] words, except possibly the pair that ends in the
    final chunk.  That bound is the best one: for every larger overlap
    there is a text on which two chunks before the final one share fewer
    than [overlap] words. *)
Theorem chunk_text_cover_bound_overlap text mw ov :
  0 < mw -> 0 <= ov < mw ->
  exists ws chunks,
    chunk_windows text mw ov = Ok ws ∧
    chunk_text text mw ov = Ok chunks ∧
    chunks = map (fun win => join (str " ") win.2) ws ∧
    (forall w, w ∈ split text -> exists c, c ∈ chunks ∧ w ∈ split c) ∧
    (forall c, c ∈ chunks -> len (split c) <= mw) ∧
    (forall (k : nat) w1 w2,
        ws !! k = Some w1 -> ws !! S k = Some w2 ->
        shared w1 w2 = len w1.2 - (mw - ov) ∧
        take (Z.to_nat (shared w1 w2)) w2.2 = drop (Z.to_nat (mw - ov)) w1.2 ∧
        (len w1.2 = mw -> shared w1 w2 = ov)) ∧
    (2 * ov <= mw + 1 -> overlap_except_final text mw ov) ∧
    (mw + 2 <= 2 * ov -> exists text', ¬ overlap_except_final text' mw ov).
Proof.
  intros Hmw Hov. assert (Hmw0 : 0 <= mw) by lia.
  destruct (chunk_windows text mw ov) as [ws|e] eqn:Hws.
  2: { rewrite chunk_windows_pos in Hws by lia. done. }
  exists ws, (map (fun win => join (str " ") win.2) ws).
  split; [done|]. split; [by rewrite chunk_text_windows, Hws|].
  split; [done|]. split; [|split; [|split; [|split]]].
  - intros w [j Hj]%list_elem_of_lookup_1.
    destruct (chunk_windows_cover _ _ _ _ _ _ Hmw Hov Hws Hj)
      as (k & win & Hk & _ & Hw).
    exists (join (str " ") win.2). split.
    + apply list_elem_of_fmap. exists win. split; [done|].
      by apply list_elem_of_lookup_2 in Hk.
    + rewrite (chunk_windows_words text mw ov ws) by
        (done || lia || by apply list_elem_of_lookup_2 in Hk).
      by apply list_elem_of_lookup_2 in Hw.
  - intros c (win & -> & Hin)%list_elem_of_fmap.
    rewrite (chunk_windows_words text mw ov ws) by (done || lia).
    apply list_elem_of_lookup_1 in Hin as [k Hk].
    destruct (chunk_windows_shape _ _ _ _ _ _ Hmw0 (proj2 Hov) Hws Hk)
      as (_ & _ & _ & ->). lia.
  - intros k w1 w2 H1 H2.
    destruct (chunk_windows_shared _ _ _ _ _ _ _ Hmw Hov Hws H1 H2)
      as (Hsh & _ & Htk).
    repeat split; [done..|]. lia.
  - intros Hhalf. by apply overlap_except_final_half.
  - intros Hpast. eexists. by apply overlap_except_final_tight.
Qed.

Lemma chunk_text_cover_bound_overlap_witness :
  exists ws chunks,
    chunk_windows (str "a b c d e") 3 1 = Ok ws ∧
    chunk_text (str "a b c d e") 3 1 = Ok chunks ∧
    chunks = map (fun win => join (str " ") win.2) ws ∧
    (forall w, w ∈ split (str "a b c d e") -> exists c, c ∈ chunks ∧ w ∈ split c) ∧
    (forall c, c ∈ chunks -> len (split c) <= 3) ∧
    (forall (k : nat) w1 w2,
        ws !! k = Some w1 -> ws !! S k = Some w2 ->
        shared w1 w2 = len w1.2 - (3 - 1) ∧
        take (Z.to_nat (shared w1 w2)) w2.2 = drop (Z.to_nat (3 - 1)) w1.2 ∧
        (len w1.2 = 3 -> shared w1 w2 = 1)) ∧
    (2 * 1 <= 3 + 1 -> overlap_except_final (str "a b c d e") 3 1) ∧
    (3 + 2 <= 2 * 1 -> exists text', ¬ overlap_except_final text' 3 1).
Proof.
  apply (chunk_text_cover_bound_overlap (str "a b c d e") 3 1); lia.
Defined.

(** C2, as stated, fails when twice the overlap exceeds a window by two
    words or more: of the four chunks of [a b c d] with windows of 4
    words overlapping by 3, namely [a b c d], [b c d], [c d] and [d],
    the second and the third share two words, and neither is the final
    chunk. *)
Lemma overlap_except_final_fails :
  ¬ overlap_except_final (str "a b c d") 4 3.
Proof.
  intros Hclaim.
  assert (Hc := Hclaim _ 1%nat _ _ eq_refl eq_refl eq_refl ltac:(simpl; lia)).
  vm_compute in Hc. discriminate Hc.
Qed.

Example chunk_text_abcd :
  chunk_text (str "a b c d") 4 3
  = Ok [str "a b c d"; str "b c d"; str "c d"; str "d"].
Proof. reflexivity. Qed.

(** ** The title *)

(** C4 (amended).  For every summary the title is made from its first
    twelve words joined by single spaces: when that string is empty the
    title is ["Untitled Summary..."], the fallback with the suffix, since
    the fallback does not end with a period; otherwise ["..."] is appended
    unless the string already ends with a period.  The title is never
    empty and has at most twelve words. *)
Theorem make_title_spec summary :
  make_title summary
  = (let first12 := join (str " ") (take 12 (split summary)) in
     if decide (first12 = []) then str "Untitled Summary..."
     else if endswith first12 (str ".") then first12
          else first12 ++ str "...") ∧
  make_title summary ≠ [] ∧
  len (split (make_title summary)) <= 12.
Proof.
  unfold make_title. rewrite slice_prefix by lia.
  change (Z.to_nat 12) with 12%nat.
  assert (Hws : Forall word (take 12 (split summary)))
    by apply Forall_take, split_words.
  assert (Hlen : (length (take 12 (split summary)) <= 12)%nat)
    by (rewrite length_take; lia).
  set (ws := take 12 (split summary)) in *. simpl.
  destruct (decide (join (str " ") ws = [])) as [Hnil|Hnil].
  - rewrite Hnil. simpl. repeat split; [done|]. by vm_compute.
  - assert (Ht : truthy (PStr (join (str " ") ws)) = true).
    { simpl. by destruct (join (str " ") ws). }
    simpl in Ht. rewrite Ht. simpl.
    destruct (endswith (join (str " ") ws) (str ".")) eqn:Hend; simpl.
    + repeat split; [done|]. rewrite split_join by done. unfold len. lia.
    + split; [done|]. split; [by destruct (join (str " ") ws)|].
      destruct ws as [|w0 ws0] using rev_ind; [done|].
      rewrite join_snoc. rewrite split_join.
      * unfold len. rewrite length_app in *. simpl in *. lia.
      * apply Forall_app in Hws as [Hws0 Hw0]. apply Forall_app. split; [done|].
        inversion_clear Hw0 as [|? ? [Hne Hsp] _]. repeat constructor.
        -- by destruct w0.
        -- apply Forall_app. split; [done|]. by repeat constructor.
Qed.

(** C4, as stated, fails on the empty summary: the fallback title gets
    the suffix too. *)
Lemma fallback_title_is_literal_fails :
  ¬ fallback_title_is_literal (str "").
Proof.
  intros Hclaim. assert (Hc := Hclaim eq_refl). vm_compute in Hc. discriminate Hc.
Qed.

Example make_title_empty : make_title (str "") = str "Untitled Summary...".
Proof. reflexivity. Qed.

Example make_title_sentence :
  make_title (str "The cat sat.") = str "The cat sat.".
Proof. reflexivity. Qed.

Example make_title_long :
  make_title (str "a b c d e f g h i j k l m n")
  = str "a b c d e f g h i j k l...".
Proof. reflexivity. Qed.

(** ** Reading the mode *)

Lemma eq_str_spec v s : eq_str v s = true <-> v = PStr s.
Proof.
  destruct v; simpl; try (split; [done|intros [=]]).
  rewrite bool_decide_eq_true. split; [by intros ->|by intros [= ->]].
Qed.

(** ** Length presets *)

Lemma LENGTH_PRESETS_lookup s :
  default (50, 100) (LENGTH_PRESETS !! s) = specified_bounds (Some (PStr s)).
Proof.
  unfold LENGTH_PRESETS, specified_bounds.
  destruct (decide (s = str "short")) as [->|Hs]; [done|].
  rewrite lookup_insert_ne by done.
  destruct (decide (s = str "long")) as [->|Hl]; [done|].
  destruct (decide (s = str "medium")) as [->|Hm]; [done|].
  by rewrite !lookup_insert_ne by done.
Qed.

(** C7, as stated, fails for a length that is an array: the lookup of an
    unhashable key raises instead of falling back to medium. *)
Lemma request_bounds_array_fails :
  request_bounds (<[str "length" := PList []]> (request "some text" "" "reliable"))
  ≠ Ok (50, 100).
Proof. by vm_compute. Qed.

(** ** Running the handler *)

Section HandlerProperties.
Context `{Backend}.

#[local] Opaque str fmt.

Lemma run_bind {A B} (m : M A) (k : A -> M B) w :
  (m ≫= k) w
  = match m w with
    | (Ok a, w') => k a w'
    | (Raise e, w') => (Raise e, w')
    end.
Proof. reflexivity. Qed.

Lemma run_ret {A} (a : A) w : (mret a : M A) w = (Ok a, w).
Proof. reflexivity. Qed.

Lemma run_emit e w : emit e w = (Ok tt, record_events [e] w).
Proof. reflexivity. Qed.

Lemma run_encode text w :
  encode text w = (tokenizer_encode text, record_events [EvTokenize text] w).
Proof. reflexivity. Qed.

Lemma run_summary_text c w :
  summary_text c w = (outcome (summarizer c (rng w)).1, after_call c w).
Proof.
  unfold summary_text, after_call. rewrite run_bind. unfold call_summarizer.
  destruct (summarizer c (rng w)) as [[out|e] g]; reflexivity.
Qed.

Lemma record_events_app evs1 evs2 w :
  record_events evs2 (record_events evs1 w) = record_events (evs1 ++ evs2) w.
Proof. unfold record_events. simpl. by rewrite app_assoc. Qed.

Lemma summarizer_events_app tr1 tr2 :
  summarizer_events (tr1 ++ tr2) = summarizer_events tr1 ++ summarizer_events tr2.
Proof. apply omap_app. Qed.

Lemma saved_records_app tr1 tr2 :
  saved_records (tr1 ++ tr2) = saved_records tr1 ++ saved_records tr2.
Proof. apply omap_app. Qed.

Lemma tokenizer_calls_app tr1 tr2 :
  tokenizer_calls (tr1 ++ tr2) = tokenizer_calls tr1 ++ tokenizer_calls tr2.
Proof. apply omap_app. Qed.

(** *** Computations that do not touch the store *)

Lemma quiet_ret {A} (a : A) : quiet (mret a).
Proof. intros w. exists []. simpl. by rewrite app_nil_r. Qed.




Lemma quiet_summary_text c : quiet (summary_text c).
Proof.
  intros w. rewrite run_summary_text.
  exists [EvSummarize c (summarizer c (rng w)).1]. simpl.
  repeat split. intros c' out e [= <- <-] Hout. done.
Qed.

Lemma quiet_bind {A B} (m : M A) (k : A -> M B) :
  quiet m -> (forall a, quiet (k a)) -> quiet (m ≫= k).
Proof.
  intros Hm Hk w. rewrite run_bind.
  destruct (Hm w) as (tr1 & Ht1 & Hs1 & Hc1 & Hsv1 & Hl1).
  destruct (m w) as [[a|e] w1]; simpl in *.
  - destruct (Hk a w1) as (tr2 & Ht2 & Hs2 & Hc2 & Hsv2 & Hl2).
    exists (tr1 ++ tr2). rewrite Ht2, Ht1, Hs2, Hs1, Hc2, Hc1, app_assoc.
    rewrite saved_records_app, Hsv1, Hsv2. split_and!; [done..|].
    intros c out e. rewrite summarizer_events_app, last_app.
    destruct (last (summarizer_events tr2)) as [[c2 out2]|] eqn:E2.
    + intros [= -> ->] Hout. by apply (Hl2 c out).
    + intros Hlast Hout. by specialize (Hl1 _ _ _ Hlast Hout).
  - exists tr1. split_and!; try done.
    intros c out e' Hlast Hout. by injection (Hl1 c out e' Hlast Hout) as ->.
Qed.

Lemma quiet_for_each {A B} (f : A -> M B) l :
  (forall a, quiet (f a)) -> quiet (for_each f l).
Proof.
  intros Hf. induction l as [|a l IH]; simpl.
  - apply quiet_ret.
  - apply quiet_bind; [done|]. intros b.
    apply quiet_bind; [done|]. intros bs. apply quiet_ret.
Qed.


(** *** The handler, case by case *)

(** A request without text, or with a text that is false, is answered
    with 400 after two log entries and nothing else. *)
Lemma run_summarize_falsy data w :
  truthy (default (PStr (str "")) (data !! str "text")) = false ->
  summarize data w
  = (Ok bad_request,
     record_events [EvLog INFO (str "Summarization request initiated.");
                    EvLog ERROR (str "No input text provided.")] w).
Proof.
  intros Hf. unfold summarize. rewrite run_bind. simpl. rewrite Hf. simpl.
  rewrite run_bind. simpl. unfold mret, M_ret. f_equal.
  unfold record_events. simpl. by rewrite <- app_assoc.
Qed.

(** A text that is true but not a string stops the handler on line 102,
    outside the [try]. *)
Lemma run_summarize_not_str data w v :
  data !! str "text" = Some v -> truthy v = true ->
  (forall t, v ≠ PStr t) ->
  summarize data w
  = (Raise (attribute_error v (str "split")),
     record_events [EvLog INFO (str "Summarization request initiated.")] w).
Proof.
  intros Hv Ht Hns. unfold summarize. rewrite run_bind. simpl.
  rewrite Hv. simpl. rewrite Ht. simpl.
  destruct v; try done. by destruct (Hns s).
Qed.

Lemma run_save r w :
  save r w
  = match store_refuses r (store w) with
    | Some e => (Raise e, w)
    | None => (Ok tt, stored r [] w)
    end.
Proof. reflexivity. Qed.

Lemma record_events_stored r evs0 evs w :
  record_events evs (stored r evs0 w) = stored r (evs0 ++ evs) w.
Proof.
  unfold record_events, stored. cbn [rng clock store trace].
  by rewrite <- app_assoc.
Qed.

(** The body of the [try]: the pipeline, then the store. *)
Lemma run_summarize_try t length mode w :
  let p := produce_summary t length mode w in
  summarize_try t length mode w
  = match p.1 with
    | Raise e => (Raise e, p.2)
    | Ok (summary, input_tokens) =>
        let r := new_record t summary (clock p.2) in
        match store_refuses r (store p.2) with
        | Some e => (Raise e, p.2)
        | None =>
            (Ok (success_response t summary input_tokens),
             stored r [EvLog INFO (str "Summary generated successfully for text of length "
                                   ++ fmt (len t) ++ str ".")] p.2)
        end
    end.
Proof.
  intros p. unfold summarize_try. rewrite run_bind. subst p.
  destruct (produce_summary t length mode w) as [[[summary input_tokens]|e] w1];
    [|reflexivity].
  cbv beta iota. rewrite run_bind. unfold utcnow at 1. cbv beta iota.
  rewrite run_bind, run_save. cbn [fst snd].
  fold (new_record t summary (clock w1)).
  destruct (store_refuses _ (store w1)) as [e|]; [reflexivity|].
  rewrite run_bind. unfold log. rewrite run_emit. cbv beta iota.
  by rewrite record_events_stored.
Qed.

Lemma run_summarize_except e w :
  summarize_except e w = (Ok (error_response e), record_events [error_log e] w).
Proof.
  unfold summarize_except, error_response, error_log.
  destruct (is_IndexError e); rewrite run_bind; unfold log; by rewrite run_emit.
Qed.

(** A text that is a non-empty string runs the pipeline; the handler
    then stores the record and answers with the summary, or answers
    with the error of whichever step raised. *)
Lemma run_summarize_str data w t :
  data !! str "text" = Some (PStr t) -> t ≠ [] ->
  let length := default (PStr (str "medium")) (data !! str "length") in
  let mode := default (PStr (str "reliable")) (data !! str "mode") in
  let completed := EvLog INFO (str "Summarization request completed.") in
  let p := produce_summary t length mode (record_events (opening_logs t) w) in
  summarize data w
  = match p.1 with
    | Raise e => (Ok (error_response e), record_events [error_log e; completed] p.2)
    | Ok (summary, input_tokens) =>
        let r := new_record t summary (clock p.2) in
        match store_refuses r (store p.2) with
        | Some e => (Ok (error_response e), record_events [error_log e; completed] p.2)
        | None =>
            (Ok (success_response t summary input_tokens),
             stored r [EvLog INFO (str "Summary generated successfully for text of length "
                                   ++ fmt (len t) ++ str ".");
                       completed] p.2)
        end
    end.
Proof.
  intros Ht Hne length mode completed p.
  unfold summarize. rewrite run_bind. unfold log at 1. rewrite run_emit.
  rewrite Ht. change (default (PStr (str "")) (Some (PStr t))) with (PStr t).
  cbn [truthy]. destruct t as [|c t0]; [done|]. cbn [negb]. rewrite run_bind.
  assert (Hopen :
    (if len (split (c :: t0)) <? 10
     then log WARNING (str "Short input received. The summary might not be accurate.")
     else mret tt)
      (record_events [EvLog INFO (str "Summarization request initiated.")] w)
    = (Ok tt, record_events (opening_logs (c :: t0)) w)).
  { unfold opening_logs. destruct (len (split (c :: t0)) <? 10).
    - unfold log. rewrite run_emit, record_events_app. done.
    - done. }
  rewrite Hopen. unfold try_finally, try_except.
  rewrite run_summarize_try. fold length mode p.
  destruct p.1 as [[summary input_tokens]|e].
  - cbv zeta. destruct (store_refuses _ (store p.2)) as [e|].
    + rewrite run_summarize_except. unfold log. rewrite run_emit.
      by rewrite record_events_app.
    + unfold log. rewrite run_emit. by rewrite record_events_stored.
  - rewrite run_summarize_except. unfold log. rewrite run_emit.
    by rewrite record_events_app.
Qed.

(** *** Validation *)

(** C6.  A request whose text is missing or is the empty string is
    answered with status 400 and the body
    [{ok: false, error: "Input text is required."}]; the store is
    unchanged, nothing is saved, and neither the tokenizer nor the
    summarizer is called. *)
Theorem missing_text_rejected data w :
  data !! str "text" = None ∨ data !! str "text" = Some (PStr (str "")) ->
  exists tr,
    summarize data w = (Ok bad_request, record_events tr w) ∧
    status bad_request = 400 ∧
    body bad_request
    = <[str "ok" := PBool false]>
        (<[str "error" := PStr (str "Input text is required.")]> ∅) ∧
    store (record_events tr w) = store w ∧
    saved_records tr = [] ∧
    tokenizer_calls tr = [] ∧
    summarizer_calls tr = [].
Proof.
  intros Htext.
  exists [EvLog INFO (str "Summarization request initiated.");
          EvLog ERROR (str "No input text provided.")].
  split; [|by split_and!].
  apply run_summarize_falsy. by destruct Htext as [-> | ->]; vm_compute.
Qed.

(** *** The mode *)

Lemma eq_str_not v s : v ≠ PStr s -> eq_str v s = false.
Proof.
  intros Hv. destruct (eq_str v s) eqn:E; [|done].
  by apply eq_str_spec in E.
Qed.





(** *** Failures *)

Lemma error_response_spec e :
  status (error_response e) = 500 ∧
  body (error_response e)
  = <[str "error" := PStr (if is_IndexError e
                           then str "Index error during summarization."
                           else exc_msg e)]> ∅.
Proof. unfold error_response. by destruct (is_IndexError e). Qed.

Lemma summarizer_events_opening_logs t : summarizer_events (opening_logs t) = [].
Proof. unfold opening_logs. by destruct (len (split t) <? 10). Qed.


Lemma summarizer_events_error_log e ev : summarizer_events [error_log e; EvLog INFO ev] = [].
Proof. unfold error_log. by destruct (is_IndexError e). Qed.


(** The three ways a request can go, by its text. *)
Lemma text_cases (data : gmap (list N) PyVal) :
  truthy (default (PStr (str "")) (data !! str "text")) = false ∨
  (exists v, data !! str "text" = Some v ∧ truthy v = true ∧ forall t, v ≠ PStr t) ∨
  (exists t, data !! str "text" = Some (PStr t) ∧ t ≠ []).
Proof.
  destruct (data !! str "text") as [v|]; [|by left].
  destruct (truthy v) eqn:Hv; [|by left]. right.
  destruct v as [| | | |t| |]; try (left; eexists; by split_and!).
  right. exists t. split; [done|]. by intros ->.
Qed.


(** *** Determinism *)

Lemma deterministic_ret {A} (a : A) : deterministic (mret a).
Proof. by intros w1 w2. Qed.

Lemma deterministic_lift {A} (r : result A) : deterministic (lift r).
Proof. by intros w1 w2. Qed.

Lemma deterministic_log level msg : deterministic (log level msg).
Proof. by intros w1 w2. Qed.

Lemma deterministic_encode text : deterministic (encode text).
Proof. by intros w1 w2. Qed.

Lemma deterministic_summary_text c :
  deterministic_capability -> do_sample c = false ->
  deterministic (summary_text c).
Proof.
  intros Hcap Hc w1 w2. rewrite !run_summary_text. cbn [fst].
  by rewrite (Hcap c (rng w1) (rng w2) Hc).
Qed.

Lemma deterministic_bind {A B} (m : M A) (k : A -> M B) :
  deterministic m -> (forall a, deterministic (k a)) -> deterministic (m ≫= k).
Proof.
  intros Hm Hk w1 w2. rewrite !run_bind. specialize (Hm w1 w2).
  destruct (m w1) as [[a1|e1] w1'], (m w2) as [[a2|e2] w2'];
    cbn [fst] in Hm; try done.
  - injection Hm as ->. apply Hk.
  - by injection Hm as ->.
Qed.

Lemma deterministic_for_each {A B} (f : A -> M B) l :
  (forall a, deterministic (f a)) -> deterministic (for_each f l).
Proof.
  intros Hf. induction l as [|a l IH]; cbn [for_each].
  - apply deterministic_ret.
  - apply deterministic_bind; [done|]. intros b.
    apply deterministic_bind; [done|]. intros bs. apply deterministic_ret.
Qed.

(** Without sampling, a deterministic capability makes the pipeline
    deterministic, on the direct path and on the chunked one. *)
Lemma deterministic_produce_summary text length mode :
  deterministic_capability ->
  mode ≠ PStr (str "creative") ->
  deterministic (produce_summary text length mode).
Proof.
  intros Hcap Hmode. pose proof (eq_str_not _ _ Hmode) as Hne.
  unfold produce_summary.
  apply deterministic_bind; [apply deterministic_lift|]. intros [preset_min preset_max].
  apply deterministic_bind; [apply deterministic_encode|]. intros tokens.
  apply deterministic_bind; [apply deterministic_log|]. intros _.
  destruct (MAX_TOKENS <? len tokens).
  - apply deterministic_bind; [apply deterministic_log|]. intros _.
    apply deterministic_bind; [apply deterministic_lift|]. intros chunks.
    apply deterministic_bind.
    { apply deterministic_for_each. intros chunk.
      by apply deterministic_summary_text. }
    intros partials.
    apply deterministic_bind; [|intros; apply deterministic_ret].
    apply deterministic_summary_text; [done|].
    unfold combined_call. cbn [do_sample]. by rewrite Hne.
  - apply deterministic_bind; [|intros; apply deterministic_ret].
    apply deterministic_summary_text; [done|].
    unfold direct_call. cbn [do_sample]. by rewrite Hne.
Qed.

(** C9.  Take two runs on the same request, whose mode is ["reliable"]
    (or anything but ["creative"]), with a capability that is
    deterministic when it does not sample.  Whatever the worlds the two
    runs start in, the pipeline ends the same way in both: with the same
    summary and token count, or with the same exception.  And when both
    requests are answered with status 200 the two responses are equal.
    This holds for a text that takes the direct path, and for one that
    is chunked as well. *)
Theorem reliable_runs_agree data w1 w2 :
  deterministic_capability ->
  default (PStr (str "reliable")) (data !! str "mode") ≠ PStr (str "creative") ->
  (forall text,
      (produce_summary text (default (PStr (str "medium")) (data !! str "length"))
                       (default (PStr (str "reliable")) (data !! str "mode")) w1).1
      = (produce_summary text (default (PStr (str "medium")) (data !! str "length"))
                         (default (PStr (str "reliable")) (data !! str "mode")) w2).1) ∧
  (forall resp1 resp2,
      (summarize data w1).1 = Ok resp1 -> (summarize data w2).1 = Ok resp2 ->
      status resp1 = 200 -> status resp2 = 200 ->
      resp1 = resp2).
Proof.
  intros Hcap Hmode.
  assert (Hdet := fun text =>
    deterministic_produce_summary text
      (default (PStr (str "medium")) (data !! str "length")) _ Hcap Hmode).
  split; [intros text; apply Hdet|].
  intros resp1 resp2.
  destruct (text_cases data) as [Hf|[(v & Hv & Ht & Hns)|(t & Ht & Hne)]].
  - rewrite !(run_summarize_falsy _ _ Hf). intros [= <-] _. by vm_compute.
  - by rewrite !(run_summarize_not_str _ _ _ Hv Ht Hns).
  - rewrite !(run_summarize_str _ _ _ Ht Hne). cbv zeta.
    specialize (Hdet t (record_events (opening_logs t) w1)
                       (record_events (opening_logs t) w2)).
    rewrite Hdet.
    destruct (produce_summary t _ _ (record_events (opening_logs t) w2)).1
      as [[s n]|e].
    + do 2 destruct (store_refuses _ _) as [?|].
      all: cbn [fst]; intros [= <-] [= <-]; try done.
      all: intros Hs1 Hs2; exfalso; revert Hs1 Hs2.
      all: rewrite ?(proj1 (error_response_spec _)); done.
    + cbn [fst]. intros [= <-] [= <-]. done.
Qed.

(** *** The two paths of the pipeline *)

Lemma summarizer_events_zip calls outs :
  summarizer_events (zip_with EvSummarize calls outs) = zip calls outs.
Proof.
  revert outs. induction calls as [|c calls IH]; intros [|o outs]; try done.
  cbn. f_equal. apply IH.
Qed.


(** The list comprehension of line 123: the chunks are summarized in
    order, each by a call without sampling, until one call fails to give
    a summary. *)
Lemma for_each_chunks preset_max preset_min chunks w :
  let p := for_each (fun chunk => summary_text (chunk_call chunk preset_max preset_min))
                    chunks w in
  exists outs,
    trace p.2
    = trace w ++ zip_with EvSummarize
                   (map (fun chunk => chunk_call chunk preset_max preset_min) chunks)
                   outs ∧
    (length outs <= length chunks)%nat ∧
    match p.1 with
    | Ok partials =>
        length outs = length chunks ∧ map outcome outs = map Ok partials
    | Raise e => exists o, last outs = Some o ∧ outcome o = Raise e
    end.
Proof.
  revert w. induction chunks as [|c chunks IH]; intros w; cbv zeta.
  - exists []. cbn. by rewrite app_nil_r.
  - cbn [for_each]. rewrite run_bind, run_summary_text.
    set (call := chunk_call c preset_max preset_min).
    set (o := (summarizer call (rng w)).1).
    destruct (outcome o) as [y|e] eqn:Ho.
    + destruct (IH (after_call call w)) as (outs & Htr & Hlen & Hres).
      rewrite run_bind.
      destruct (for_each _ chunks (after_call call w)) as [[ys|e] w'].
      * exists (o :: outs). rewrite run_ret. cbn [fst snd] in *. split_and!.
        -- rewrite Htr. cbn. by rewrite <- app_assoc.
        -- cbn. lia.
        -- destruct Hres as [Hl Hm]. cbn [length]. by rewrite Hl.
        -- destruct Hres as [Hl Hm]. cbn [map]. by rewrite Hm, Ho.
      * exists (o :: outs). cbn [fst snd] in *. split_and!.
        -- rewrite Htr. cbn. by rewrite <- app_assoc.
        -- cbn. lia.
        -- destruct Hres as (o' & Hl & Ho'). exists o'. split; [|done].
           destruct outs; [done|]. by rewrite last_cons_cons.
    + exists [o]. cbn [fst snd]. split_and!.
      * cbn [map zip_with]. by rewrite zip_with_nil_r.
      * cbn. lia.
      * by exists o.
Qed.


(** With its defaults the chunker never raises. *)
Lemma chunk_text_defaults text :
  exists chunks, chunk_text text 700 100 = Ok chunks.
Proof.
  rewrite chunk_text_windows, chunk_windows_pos by lia. by eexists.
Qed.


Lemma summarizer_events_pipeline_logs t toks :
  summarizer_events (pipeline_logs t toks) = [].
Proof. unfold pipeline_logs. by destruct (MAX_TOKENS <? len toks). Qed.

(** The pipeline up to its first call of the model. *)
Lemma run_produce_summary t length mode preset_min preset_max toks w :
  dict_get LENGTH_PRESETS length (50, 100) = Ok (preset_min, preset_max) ->
  tokenizer_encode t = Ok toks ->
  let w0 := record_events (pipeline_logs t toks) w in
  produce_summary t length mode w
  = if MAX_TOKENS <? len toks
    then
      match chunk_text t 700 100 with
      | Raise e => (Raise e, w0)
      | Ok chunks =>
          let p := for_each
                     (fun chunk => summary_text (chunk_call chunk preset_max preset_min))
                     chunks w0 in
          match p.1 with
          | Raise e => (Raise e, p.2)
          | Ok partials =>
              let c := combined_call (join (str " ") partials)
                                     preset_max preset_min mode in
              (s ← outcome (summarizer c (rng p.2)).1; Ok (s, len toks),
               after_call c p.2)
          end
      end
    else
      let c := direct_call t preset_max preset_min mode in
      (s ← outcome (summarizer c (rng w0)).1; Ok (s, len toks), after_call c w0).
Proof.
  intros Hb Htok w0. unfold produce_summary. rewrite run_bind. unfold lift at 1.
  rewrite Hb. cbv beta iota. rewrite run_bind, run_encode, Htok.
  rewrite run_bind. unfold log at 1. rewrite run_emit, record_events_app.
  subst w0. unfold pipeline_logs.
  destruct (MAX_TOKENS <? len toks).
  - rewrite run_bind. unfold log at 1. rewrite run_emit, record_events_app.
    rewrite run_bind. unfold lift at 1. cbn [app].
    destruct (chunk_text t 700 100) as [chunks|e]; [|done].
    rewrite run_bind. cbv zeta.
    destruct (for_each _ chunks _) as [[partials|e] w1]; [|done].
    cbn [fst snd]. rewrite run_bind. unfold summarize_combined_chunks.
    rewrite run_summary_text.
    by destruct (outcome _).
  - cbv zeta. rewrite app_nil_r. rewrite run_bind, run_summary_text.
    by destruct (outcome _).
Qed.


End HandlerProperties.

(** ** The theorems on concrete requests *)

#[local] Existing Instance stub.


Lemma missing_text_rejected_witness :
  let data : gmap (list N) PyVal := <[str "length" := PStr (str "short")]> ∅ in
  exists tr,
    summarize data (@fresh stub tt) = (Ok bad_request, record_events tr (@fresh stub tt)) ∧
    status bad_request = 400 ∧
    body bad_request
    = <[str "ok" := PBool false]>
        (<[str "error" := PStr (str "Input text is required.")]> ∅) ∧
    store (record_events tr (@fresh stub tt)) = store (@fresh stub tt) ∧
    saved_records tr = [] ∧
    tokenizer_calls tr = [] ∧
    summarizer_calls tr = [].
Proof.
  intros data.
  apply (@missing_text_rejected stub data (@fresh stub tt)).
  left. by vm_compute.
Defined.


(** Two runs of a two-word request, the second in a world whose clock
    has moved and whose store already holds a record. *)
Lemma reliable_runs_agree_witness :
  let data := request "hello world" "short" "reliable" in
  let w1 : World := @fresh stub tt in
  let w2 : World :=
    {| rng := tt; clock := 60;
       store := [new_record (str "old") (str "old") 0]; trace := [] |} in
  (forall text,
      (produce_summary text (default (PStr (str "medium")) (data !! str "length"))
                       (default (PStr (str "reliable")) (data !! str "mode")) w1).1
      = (produce_summary text (default (PStr (str "medium")) (data !! str "length"))
                         (default (PStr (str "reliable")) (data !! str "mode")) w2).1) ∧
  (forall resp1 resp2,
      (summarize data w1).1 = Ok resp1 -> (summarize data w2).1 = Ok resp2 ->
      status resp1 = 200 -> status resp2 = 200 ->
      resp1 = resp2).
Proof.
  intros data w1 w2.
  apply (@reliable_runs_agree stub data w1 w2).
  - by intros c g1 g2 _.
  - by vm_compute.
Defined.

(** ** Runs of the handler *)

(** Two words are 800 tokens: one direct call, and the title gets its
    suffix. *)
Example run_direct :
  let r := @summarize stub (request "hello  world" "short" "creative") (@fresh stub tt) in
  r.1 = Ok (success (str "hello world...") (str "hello world") 2 2 800) ∧
  summarizer_calls (trace r.2)
  = [direct_call (str "hello  world") 30 15 (PStr (str "creative"))] ∧
  store r.2 = [new_record (str "hello  world") (str "hello world") 0].
Proof. by vm_compute. Qed.

(** Three words are 1200 tokens: one chunk, summarized without sampling,
    then the recombination call. *)
Example run_chunked :
  let r := @summarize stub (request "hello big world" "long" "creative") (@fresh stub tt) in
  r.1 = Ok (success (str "hello big...") (str "hello big") 3 2 1200) ∧
  summarizer_calls (trace r.2)
  = [chunk_call (str "hello big world") 180 100;
     combined_call (str "hello big") 180 100 (PStr (str "creative"))].
Proof. by vm_compute. Qed.

(** A model that raises an [IndexError], and one that returns an empty
    list, both end in the index error response; nothing is stored. *)
Example run_index_error :
  let H := stub_backend (failing (mkExc IndexError (str "index out of range in self"))) in
  let r := @summarize H (request "hello world" "short" "reliable") (@fresh H tt) in
  r.1 = Ok (server_error (str "Index error during summarization.")) ∧ store r.2 = [].
Proof. by vm_compute. Qed.

Example run_empty_result :
  let H := stub_backend (fun _ => Ok []) in
  let r := @summarize H (request "hello world" "short" "reliable") (@fresh H tt) in
  r.1 = Ok (server_error (str "Index error during summarization.")) ∧ store r.2 = [].
Proof. by vm_compute. Qed.

(** Any other exception is answered with its message. *)
Example run_other_error :
  let H := stub_backend
             (failing (mkExc (OtherException (str "RuntimeError")) (str "out of memory"))) in
  let r := @summarize H (request "hello world" "short" "reliable") (@fresh H tt) in
  r.1 = Ok (server_error (str "out of memory")) ∧ store r.2 = [].
Proof. by vm_compute. Qed.

(** A length that is an array: the lookup of the bounds raises before
    the text is tokenized. *)
Example run_array_length :
  let data := <[str "length" := PList []]> (request "hello world" "" "reliable") in
  let r := @summarize stub data (@fresh stub tt) in
  r.1 = Ok (server_error (str "unhashable type: 'list'")) ∧
  tokenizer_calls (trace r.2) = [] ∧
  store r.2 = [].
Proof. by vm_compute. Qed.

(** A text that is a number is true but cannot be split. *)
Example run_number_text :
  let data : gmap (list N) PyVal := <[str "text" := PInt 5]> ∅ in
  (@summarize stub data (@fresh stub tt)).1
  = Raise (mkExc AttributeError (str "'int' object has no attribute 'split'")).
Proof. by vm_compute. Qed.

(** * Further properties of the code *)

(** ** More on the chunker (app.py, lines 65-68) *)

(** The number of chunks is the number of words over the step, rounded
    up: none for a text without words. *)
Theorem chunk_text_count text mw ov chunks :
  ov < mw ->
  chunk_text text mw ov = Ok chunks ->
  len chunks = (len (split text) + (mw - ov) - 1) / (mw - ov) ∧
  (chunks = [] <-> split text = []).
Proof.
  intros Hov. unfold chunk_text.
  rewrite range_pos; [|lia|unfold len; lia]. intros [= <-].
  set (n := len (split text)). set (step := mw - ov).
  assert (Hn : 0 <= n) by (unfold n, len; lia).
  assert (Hc : 0 <= (n + step - 1) / step) by (apply Z.div_pos; lia).
  split.
  - unfold len. rewrite !length_map, length_seq. lia.
  - split.
    + intros Hnil. apply (f_equal length) in Hnil.
      rewrite !length_map, length_seq in Hnil. cbn in Hnil.
      destruct (split text) as [|w ws] eqn:E; [done|]. exfalso.
      assert (0 < (n + step - 1) / step); [|lia].
      apply (range_count n step 0); [lia..|]. unfold n, len. cbn. lia.
    + intros Hnil. subst n step. rewrite Hnil. unfold len. cbn [length Z.of_nat].
      rewrite Z.div_small by lia. done.
Qed.

Lemma chunk_text_count_witness :
  len [str "a b c"; str "c d e"; str "e"] = (len (split (str "a b c d e")) + (3 - 1) - 1) / (3 - 1) ∧
  ([str "a b c"; str "c d e"; str "e"] = [] <-> split (str "a b c d e") = []).
Proof.
  apply (chunk_text_count (str "a b c d e") 3 1); [lia|reflexivity].
Defined.

(** When the overlap is not below the window the loop has no positive
    step: with a step of zero [range] raises [ValueError], with a
    negative step it is empty and the chunker yields nothing, whatever
    the text. *)
Theorem chunk_text_no_positive_step text mw ov :
  mw <= ov ->
  chunk_text text mw ov
  = if mw =? ov
    then Raise (mkExc ValueError (str "range() arg 3 must not be zero"))
    else Ok [].
Proof.
  intros Hle. unfold chunk_text, range, range_len.
  destruct (Z.eqb_spec mw ov) as [->|Hne].
  - by rewrite Z.sub_diag.
  - destruct (Z.eqb_spec (mw - ov) 0); [lia|].
    destruct (Z.ltb_spec 0 (mw - ov)); [lia|].
    destruct (Z.ltb_spec (len (split text)) 0); [unfold len in *; lia|].
    done.
Qed.

Lemma chunk_text_no_positive_step_witness :
  chunk_text (str "a b c d e") 2 3 = Ok [] ∧
  chunk_text (str "a b c d e") 3 3
  = Raise (mkExc ValueError (str "range() arg 3 must not be zero")).
Proof.
  split.
  - apply (chunk_text_no_positive_step (str "a b c d e") 2 3). lia.
  - apply (chunk_text_no_positive_step (str "a b c d e") 3 3). lia.
Defined.

Lemma concat_take_drop {A} (l : list A) (s n : nat) :
  (length l <= n * s)%nat ->
  concat (map (fun k => take s (drop (k * s) l)) (seq 0 n)) = l.
Proof.
  revert l. induction n as [|n IH]; intros l Hl.
  - destruct l; [done|]. cbn in Hl. lia.
  - cbn [seq map concat]. rewrite <- seq_shift, map_map. cbn [Nat.mul drop].
    transitivity (take s l ++ drop s l); [|apply take_drop]. f_equal.
    etrans; [|apply (IH (drop s l)); rewrite length_drop; lia].
    f_equal. apply map_ext. intros k. by rewrite drop_drop.
Qed.

(** The chunks give the text back: the first [max_words - overlap] words
    of each chunk, taken in order, are exactly the words of the text. *)
Theorem chunk_text_reconstruct text mw ov chunks :
  0 <= ov < mw ->
  chunk_text text mw ov = Ok chunks ->
  concat (map (fun c => take (Z.to_nat (mw - ov)) (split c)) chunks) = split text.
Proof.
  intros [Hov0 Hov] Hc. rewrite chunk_text_windows in Hc.
  destruct (chunk_windows text mw ov) as [ws|e] eqn:Hws; [|done].
  injection Hc as <-. rewrite map_map.
  rewrite (map_ext_in _ (fun win => take (Z.to_nat (mw - ov)) win.2)).
  2: { intros win Hin%list_elem_of_In. cbn beta.
       by rewrite (chunk_windows_words text mw ov ws) by (done || lia). }
  rewrite chunk_windows_pos in Hws by lia. injection Hws as <-.
  rewrite map_map. cbn [snd].
  set (step := Z.to_nat (mw - ov)).
  rewrite (map_ext _ (fun k => take step (drop (k * step) (split text)))).
  2: { intros k. rewrite take_take. f_equal; [lia|]. f_equal. lia. }
  apply concat_take_drop.
  set (n := len (split text)).
  assert (Hn : 0 <= n) by (unfold n, len; lia).
  assert (Hceil : n <= (n + (mw - ov) - 1) / (mw - ov) * (mw - ov)).
  { pose proof (Z.div_mod (n + (mw - ov) - 1) (mw - ov) ltac:(lia)).
    pose proof (Z.mod_pos_bound (n + (mw - ov) - 1) (mw - ov) ltac:(lia)). lia. }
  assert (0 <= (n + (mw - ov) - 1) / (mw - ov)) by (apply Z.div_pos; lia).
  unfold n, len in *. nia.
Qed.

Lemma chunk_text_reconstruct_witness :
  concat (map (fun c => take (Z.to_nat (3 - 1)) (split c))
              [str "a b c"; str "c d e"; str "e"])
  = split (str "a b c d e").
Proof.
  apply (chunk_text_reconstruct (str "a b c d e") 3 1); [lia|reflexivity].
Defined.

(** Every chunk is a non-empty sequence of words separated by single
    spaces: it has at least one word, and splitting and joining it again
    changes nothing. *)
Theorem chunk_text_normal_form text mw ov chunks c :
  0 < mw -> ov < mw ->
  chunk_text text mw ov = Ok chunks ->
  c ∈ chunks ->
  c ≠ [] ∧ split c ≠ [] ∧ join (str " ") (split c) = c.
Proof.
  intros Hmw Hov Hc Hin. rewrite chunk_text_windows in Hc.
  destruct (chunk_windows text mw ov) as [ws|e] eqn:Hws; [|done].
  injection Hc as <-. apply list_elem_of_fmap in Hin as (win & -> & Hwin).
  pose proof (chunk_windows_words text mw ov ws win ltac:(lia) Hov Hws Hwin) as Hsplit.
  apply list_elem_of_lookup_1 in Hwin as [k Hk].
  destruct (chunk_windows_shape _ _ _ _ _ _ (Z.lt_le_incl _ _ Hmw) Hov Hws Hk)
    as (_ & Hr & _ & Hl).
  assert (Hne : win.2 ≠ []).
  { intros Hnil. rewrite Hnil in Hl. unfold len in *. cbn [length] in Hl. lia. }
  rewrite Hsplit. split_and!; [|done..].
  intros Hj. apply Hne. rewrite <- Hsplit, Hj. done.
Qed.

Lemma chunk_text_normal_form_witness :
  str "c d e" ≠ [] ∧ split (str "c d e") ≠ [] ∧
  join (str " ") (split (str "c d e")) = str "c d e".
Proof.
  apply (chunk_text_normal_form (str "a  b c d   e") 3 1
           [str "a b c"; str "c d e"; str "e"]); [lia|lia|reflexivity|].
  apply list_elem_of_In. cbn. tauto.
Defined.

(** With a negative overlap the step exceeds the window, and the words
    between the end of the first window and the start of the second are
    in no window at all. *)
Theorem chunk_windows_negative_overlap text mw ov ws (j : nat) :
  0 < mw -> ov < 0 ->
  chunk_windows text mw ov = Ok ws ->
  mw <= Z.of_nat j < mw - ov ->
  forall win, win ∈ ws -> ¬ (win.1 <= Z.of_nat j < win.1 + len win.2).
Proof.
  intros Hmw Hov Hws Hj win [k Hk]%list_elem_of_lookup_1.
  assert (Hlt : ov < mw) by lia.
  destruct (chunk_windows_shape _ _ _ _ _ _ (Z.lt_le_incl _ _ Hmw) Hlt Hws Hk)
    as (Hs & Hr & _ & Hl).
  destruct k as [|k]; [lia|].
  assert (mw - ov <= win.1); [|lia].
  rewrite Hs. nia.
Qed.

Lemma chunk_windows_negative_overlap_witness :
  chunk_windows (str "a b c d e") 2 (-1)
    = Ok [(0, [str "a"; str "b"]); (3, [str "d"; str "e"])] ∧
  Forall (fun win : Z * list pystr =>
            ¬ (win.1 <= Z.of_nat 2 < win.1 + len win.2))
         [(0, [str "a"; str "b"]); (3, [str "d"; str "e"])].
Proof.
  split; [reflexivity|]. apply Forall_forall.
  apply (chunk_windows_negative_overlap (str "a b c d e") 2 (-1));
    [lia|lia|reflexivity|lia].
Defined.

(** ** More on the title (app.py, lines 141-145) *)

Lemma endswith_dots t : endswith (t ++ str "...") (str ".") = true.
Proof.
  unfold endswith. apply bool_decide_eq_true.
  change (str "...") with [46; 46; 46]%N. change (str ".") with [46]%N.
  rewrite length_app. cbn [length].
  replace (length t + 3 - 1)%nat with (length t + 2)%nat by lia.
  by rewrite drop_app_add.
Qed.

(** A title is made of at most twelve words joined by single spaces, and
    it ends with a period. *)
Lemma make_title_words summary :
  exists ws,
    Forall word ws ∧ ws ≠ [] ∧ (length ws <= 12)%nat ∧
    make_title summary = join (str " ") ws ∧
    endswith (join (str " ") ws) (str ".") = true.
Proof.
  unfold make_title. rewrite slice_prefix by lia.
  change (Z.to_nat 12) with 12%nat.
  assert (Hws : Forall word (take 12 (split summary)))
    by apply Forall_take, split_words.
  assert (Hlen : (length (take 12 (split summary)) <= 12)%nat)
    by (rewrite length_take; lia).
  set (ws := take 12 (split summary)) in *. cbn [truthy].
  destruct (join (str " ") ws) as [|c t] eqn:Hj.
  - exists [str "Untitled"; str "Summary..."]. cbn [negb].
    split_and!; [|done|cbn; lia|done|done].
    repeat constructor; by vm_compute.
  - cbn [negb]. rewrite <- Hj.
    destruct (endswith (join (str " ") ws) (str ".")) eqn:Hend; cbn [negb].
    + exists ws. split_and!; try done. intros ->. done.
    + destruct ws as [|w0 ws0] using rev_ind; [done|].
      exists (ws0 ++ [w0 ++ str "..."]). rewrite <- join_snoc.
      split_and!; [|by destruct ws0|by rewrite length_app in *|done|apply endswith_dots].
      apply Forall_app in Hws as [Hws0 Hw0]. apply Forall_app. split; [done|].
      inversion_clear Hw0 as [|? ? [Hne Hsp] _]. repeat constructor.
      * by destruct w0.
      * apply Forall_app. split; [done|]. by repeat constructor.
Qed.

(** Every title ends with a period, and the title of a title is that
    title. *)
Theorem make_title_idempotent summary :
  endswith (make_title summary) (str ".") = true ∧
  make_title (make_title summary) = make_title summary.
Proof.
  destruct (make_title_words summary) as (ws & Hws & Hne & Hlen & -> & Hend).
  split; [done|]. unfold make_title.
  rewrite split_join by done. rewrite slice_prefix by lia.
  rewrite take_ge by (change (Z.to_nat 12) with 12%nat; lia).
  cbn [truthy]. destruct (join (str " ") ws) eqn:Hj.
  - by apply join_nil_inv in Hj.
  - cbn [negb]. by rewrite Hend.
Qed.

(** ** More on the recombination (app.py, lines 71-83) *)

Lemma split_from_app_space cur a b :
  split_from cur (a ++ 32%N :: b) = split_from cur a ++ split b.
Proof.
  revert cur. induction a as [|c a IH]; intros cur.
  - cbn. by destruct cur.
  - cbn [app split_from]. destruct (isspace c).
    + destruct cur; by rewrite IH.
    + apply IH.
Qed.

(** The words of strings joined by single spaces are the words of the
    strings, in order. *)
Lemma split_join_concat parts :
  split (join (str " ") parts) = concat (map split parts).
Proof.
  induction parts as [|p parts IH]; [done|].
  destruct parts as [|p' parts].
  - cbn. by rewrite app_nil_r.
  - change (join (str " ") (p :: p' :: parts))
      with (p ++ 32%N :: join (str " ") (p' :: parts)).
    unfold split at 1. rewrite split_from_app_space. by rewrite IH.
Qed.

(** ** More on the handler (app.py, lines 88-178) *)

Section HandlerExtras.
Context `{Backend}.

#[local] Opaque str fmt.

Lemma emits_ret P {A} (a : A) : emits P (mret a : M A).
Proof. intros w. exists []. rewrite run_ret. cbn. by rewrite app_nil_r. Qed.

Lemma emits_lift P {A} (r : result A) : emits P (lift r).
Proof. intros w. exists []. cbn. by rewrite app_nil_r. Qed.

Lemma emits_emit (P : Event -> Prop) ev : P ev -> emits P (emit ev).
Proof. intros Hev w. exists [ev]. cbn. split; [done|]. by constructor. Qed.

Lemma emits_summary_text (P : Event -> Prop) c :
  (forall out, P (EvSummarize c out)) -> emits P (summary_text c).
Proof.
  intros Hc w. rewrite run_summary_text. eexists. cbn. split; [done|].
  by constructor.
Qed.

Lemma emits_bind P {A B} (m : M A) (k : A -> M B) :
  emits P m -> (forall a, emits P (k a)) -> emits P (m ≫= k).
Proof.
  intros Hm Hk w. rewrite run_bind. destruct (Hm w) as (tr1 & Ht1 & Hp1).
  destruct (m w) as [[a|e] w1]; cbn [snd] in *.
  - destruct (Hk a w1) as (tr2 & Ht2 & Hp2). exists (tr1 ++ tr2).
    rewrite Ht2, Ht1, app_assoc. split; [done|]. by apply Forall_app.
  - by exists tr1.
Qed.

Lemma emits_for_each P {A B} (f : A -> M B) l :
  (forall a, emits P (f a)) -> emits P (for_each f l).
Proof.
  intros Hf. induction l as [|a l IH]; cbn [for_each].
  - apply emits_ret.
  - apply emits_bind; [done|]. intros b.
    apply emits_bind; [done|]. intros bs. apply emits_ret.
Qed.

Lemma emits_produce_summary text length mode :
  emits pipeline_event (produce_summary text length mode).
Proof.
  unfold produce_summary.
  apply emits_bind; [apply emits_lift|]. intros [preset_min preset_max].
  apply emits_bind.
  { unfold encode. apply emits_bind; [by apply emits_emit|]. intros _.
    apply emits_lift. }
  intros tokens.
  apply emits_bind; [apply emits_emit; by eexists|]. intros _.
  destruct (MAX_TOKENS <? len tokens).
  - apply emits_bind; [by apply emits_emit|]. intros _.
    apply emits_bind; [apply emits_lift|]. intros chunks.
    apply emits_bind.
    { apply emits_for_each. intros chunk. by apply emits_summary_text. }
    intros partials.
    apply emits_bind; [by apply emits_summary_text|]. intros summary.
    apply emits_ret.
  - apply emits_bind; [by apply emits_summary_text|]. intros summary.
    apply emits_ret.
Qed.

Lemma pipeline_event_not_framing ev :
  pipeline_event ev -> ev ≠ initiated ∧ ev ≠ completed ∧ ev ≠ short_warning.
Proof.
  destruct ev as [[| |] msg| | |]; cbn; try done.
  - intros [n ->]. split_and!; intros [= Hm]; vm_compute in Hm; discriminate Hm.
  - intros ->. split_and!; intros [= Hm]; vm_compute in Hm; discriminate Hm.
Qed.

Lemma error_log_not_framing e :
  error_log e ≠ initiated ∧ error_log e ≠ completed ∧ error_log e ≠ short_warning.
Proof. unfold error_log. by destruct (is_IndexError e). Qed.

(** What a request with a valid text adds to the trace: the opening
    entries, the events of the pipeline, and either the error entry or
    the saved record with its entry, closed by the completion entry. *)
Lemma summarize_str_events data w t :
  valid_text data t ->
  exists tr1 tail,
    trace (summarize data w).2 = trace w ++ opening_logs t ++ tr1 ++ tail ++ [completed] ∧
    Forall pipeline_event tr1 ∧
    ((exists e, tail = [error_log e]) ∨
     (exists r n, tail = [EvSave r; EvLog INFO (str "Summary generated successfully for text of length " ++ fmt n ++ str ".")])).
Proof.
  intros [Ht Hne]. rewrite (run_summarize_str _ _ _ Ht Hne). cbv zeta.
  destruct (emits_produce_summary t (default (PStr (str "medium")) (data !! str "length"))
              (default (PStr (str "reliable")) (data !! str "mode"))
              (record_events (opening_logs t) w)) as (tr1 & Htr & Hp).
  cbn [record_events trace] in Htr.
  exists tr1.
  destruct (produce_summary t _ _ _).1 as [[s n]|e].
  - destruct (store_refuses _ _) as [e|].
    + exists [error_log e]. cbn [snd record_events trace]. rewrite Htr.
      split_and!; [by rewrite <- !app_assoc|done|]. left. by eexists.
    + eexists [_; _]. cbn [snd stored trace]. rewrite Htr.
      split_and!; [by rewrite <- !app_assoc|done|]. right. by do 2 eexists.
  - exists [error_log e]. cbn [snd record_events trace]. rewrite Htr.
    split_and!; [by rewrite <- !app_assoc|done|]. left. by eexists.
Qed.

(** Every request logs that it has begun.  That it has completed is
    logged exactly for the requests whose text is a non-empty string, as
    their last entry: a request rejected for its text leaves no
    completion entry.  The advisory warning is logged exactly when such
    a text has fewer than ten words. *)
Theorem request_logging data w :
  exists tr,
    trace (summarize data w).2 = trace w ++ tr ∧
    head tr = Some initiated ∧
    (completed ∈ tr <-> exists t, valid_text data t) ∧
    (last tr = Some completed <-> exists t, valid_text data t) ∧
    (short_warning ∈ tr <-> exists t, valid_text data t ∧ len (split t) < 10).
Proof.
  destruct (text_cases data) as [Hf|[(v & Hv & Ht & Hns)|(t & Ht & Hne)]].
  - rewrite (run_summarize_falsy _ _ Hf). eexists. split; [done|].
    assert (Hno : ¬ exists t, valid_text data t).
    { intros (t & Ht & Hne). rewrite Ht in Hf. by destruct t. }
    split_and!; [done|..].
    + split; [|by intros Hex]. intros Hin. exfalso.
      apply list_elem_of_In in Hin. cbn in Hin.
      destruct Hin as [[= Hm]|[[= Hm]|[]]]; vm_compute in Hm; discriminate Hm.
    + split; [|by intros Hex]. intros [= Hm]; vm_compute in Hm; discriminate Hm.
    + split; [|intros (t & Hv & _); destruct Hno; by exists t].
      intros Hin. exfalso. apply list_elem_of_In in Hin. cbn in Hin.
      by destruct Hin as [[= Hm]|[[= Hm]|[]]].
  - rewrite (run_summarize_not_str _ _ _ Hv Ht Hns). eexists. split; [done|].
    assert (Hno : ¬ exists t, valid_text data t).
    { intros (t & Ht' & Hne). rewrite Hv in Ht'. injection Ht' as ->. by destruct (Hns t). }
    split_and!; [done|..].
    + split; [|by intros Hex]. intros Hin. exfalso.
      apply list_elem_of_In in Hin. cbn in Hin.
      destruct Hin as [[= Hm]|[]]; vm_compute in Hm; discriminate Hm.
    + split; [|by intros Hex]. intros [= Hm]; vm_compute in Hm; discriminate Hm.
    + split; [|intros (t & Hv' & _); destruct Hno; by exists t].
      intros Hin. exfalso. apply list_elem_of_In in Hin. cbn in Hin.
      by destruct Hin as [[= Hm]|[]].
  - assert (Hvalid : valid_text data t) by done.
    destruct (summarize_str_events data w t Hvalid) as (tr1 & tail & Htr & Hp & Htail).
    exists (opening_logs t ++ tr1 ++ tail ++ [completed]). split; [done|].
    assert (Htail' : Forall (fun ev => ev ≠ initiated ∧ ev ≠ completed ∧ ev ≠ short_warning) tail).
    { destruct Htail as [[e ->]|(r & n & ->)].
      - constructor; [apply error_log_not_framing|constructor].
      - repeat constructor; try done.
        all: intros [= Hm]; vm_compute in Hm; discriminate Hm. }
    assert (Hp' : Forall (fun ev => ev ≠ initiated ∧ ev ≠ completed ∧ ev ≠ short_warning) tr1).
    { eapply Forall_impl; [exact Hp|]. apply pipeline_event_not_framing. }
    split_and!.
    + done.
    + split; [by exists t|]. intros _. rewrite !elem_of_app. do 3 right.
      apply list_elem_of_In. by left.
    + split; [by exists t|]. intros _. by rewrite !app_assoc, last_snoc.
    + unfold opening_logs. rewrite !elem_of_app. split.
      * intros [Hin|[Hin|[Hin|Hin]]].
        -- exists t. split; [done|].
           destruct (Z.ltb_spec (len (split t)) 10); [done|].
           apply list_elem_of_In in Hin. cbn in Hin.
           destruct Hin as [[= Hm]|[]].
        -- rewrite Forall_forall in Hp'. by destruct (Hp' _ Hin) as (_ & _ & ?).
        -- rewrite Forall_forall in Htail'. by destruct (Htail' _ Hin) as (_ & _ & ?).
        -- apply list_elem_of_In in Hin. cbn in Hin. by destruct Hin as [[= Hm]|[]].
      * intros (t' & [Ht' _] & Hshort). rewrite Ht in Ht'. injection Ht' as <-.
        left. destruct (Z.ltb_spec (len (split t)) 10); [|lia].
        apply list_elem_of_In. cbn. by right; left.
Qed.

End HandlerExtras.

Section PipelineExtras.
Context `{Backend}.

#[local] Opaque str fmt.

Lemma run_produce_summary_bounds_fail t length mode e w :
  dict_get LENGTH_PRESETS length (50, 100) = Raise e ->
  produce_summary t length mode w = (Raise e, w).
Proof.
  intros Hb. unfold produce_summary. rewrite run_bind. unfold lift at 1.
  by rewrite Hb.
Qed.

Lemma run_produce_summary_tokenizer_fail t length mode b e w :
  dict_get LENGTH_PRESETS length (50, 100) = Ok b ->
  tokenizer_encode t = Raise e ->
  produce_summary t length mode w = (Raise e, record_events [EvTokenize t] w).
Proof.
  intros Hb Htok. unfold produce_summary. rewrite run_bind. unfold lift at 1.
  rewrite Hb. destruct b as [preset_min preset_max]. cbv beta iota.
  by rewrite run_bind, run_encode, Htok.
Qed.

(** What the pipeline adds to the trace once the bounds are found and
    the text is tokenized. *)
Lemma produce_summary_events t length mode preset_min preset_max toks w :
  dict_get LENGTH_PRESETS length (50, 100) = Ok (preset_min, preset_max) ->
  tokenizer_encode t = Ok toks ->
  let p := produce_summary t length mode w in
  exists tr,
    trace p.2 = trace w ++ pipeline_logs t toks ++ tr ∧
    store p.2 = store w ∧ clock p.2 = clock w ∧
    if MAX_TOKENS <? len toks
    then
      exists chunks outs fin,
        chunk_text t 700 100 = Ok chunks ∧
        tr = zip_with EvSummarize
               (map (fun chunk => chunk_call chunk preset_max preset_min) chunks) outs
             ++ fin ∧
        (List.length outs <= List.length chunks)%nat ∧
        ((exists c o, fin = [EvSummarize c o] ∧
                      List.length outs = List.length chunks ∧
                      p.1 = (s ← outcome o; Ok (s, len toks)))
         ∨ (fin = [] ∧ exists e, p.1 = Raise e))
    else
      exists o,
        tr = [EvSummarize (direct_call t preset_max preset_min mode) o] ∧
        p.1 = (s ← outcome o; Ok (s, len toks)).
Proof.
  intros Hb Htok p. subst p.
  rewrite (run_produce_summary _ _ _ _ _ _ _ Hb Htok). cbv zeta.
  set (w0 := record_events (pipeline_logs t toks) w).
  destruct (MAX_TOKENS <? len toks).
  - destruct (chunk_text_defaults t) as [chunks Hchunks]. rewrite Hchunks.
    destruct (for_each_chunks preset_max preset_min chunks w0)
      as (outs & Htr & Hlen & Hres).
    destruct (quiet_for_each
                (fun chunk => summary_text (chunk_call chunk preset_max preset_min))
                chunks (fun chunk => quiet_summary_text _) w0)
      as (_ & _ & Hst & Hcl & _).
    destruct (for_each _ chunks w0) as [[partials|e] w1]; cbn [fst snd] in *.
    + eexists. cbn [after_call trace store clock]. rewrite Htr, Hst, Hcl.
      subst w0. cbn [record_events trace store clock].
      split_and!; [by rewrite <- !app_assoc|done|done|].
      exists chunks, outs. eexists. split_and!; [done|done|done|].
      left. do 2 eexists. by destruct Hres.
    + eexists. rewrite Htr, Hst, Hcl.
      subst w0. cbn [record_events trace store clock].
      split_and!; [by rewrite <- !app_assoc|done|done|].
      exists chunks, outs, []. rewrite app_nil_r. split_and!; [done..|].
      right. split; [done|]. by exists e.
  - eexists. subst w0. cbn [snd after_call record_events trace store clock rng].
    split_and!; [by rewrite <- !app_assoc|done|done|].
    eexists. by split.
Qed.

(** A summary that the pipeline returns is the outcome of its last call
    of the model, and the token count that comes with it is that of the
    text. *)
Lemma produce_summary_ok t length mode w s n :
  (produce_summary t length mode w).1 = Ok (s, n) ->
  exists toks tr c o,
    tokenizer_encode t = Ok toks ∧ n = len toks ∧
    trace (produce_summary t length mode w).2 = trace w ++ tr ∧
    store (produce_summary t length mode w).2 = store w ∧
    clock (produce_summary t length mode w).2 = clock w ∧
    last (summarizer_events tr) = Some (c, o) ∧ outcome o = Ok s.
Proof.
  intros Hok.
  destruct (dict_get LENGTH_PRESETS length (50, 100)) as [[preset_min preset_max]|e] eqn:Hb.
  2: { by rewrite (run_produce_summary_bounds_fail _ _ _ _ _ Hb) in Hok. }
  destruct (tokenizer_encode t) as [toks|e] eqn:Htok.
  2: { by rewrite (run_produce_summary_tokenizer_fail _ _ _ _ _ _ Hb Htok) in Hok. }
  destruct (produce_summary_events t length mode _ _ _ w Hb Htok)
    as (tr & Htr & Hst & Hcl & Hcalls).
  assert (Hres : forall o, (produce_summary t length mode w).1
                           = (s' ← outcome o; Ok (s', len toks)) ->
                           outcome o = Ok s ∧ n = len toks).
  { intros o Ho. rewrite Hok in Ho. destruct (outcome o) as [s'|e]; [|done].
    by injection Ho as -> ->. }
  exists toks, (pipeline_logs t toks ++ tr).
  destruct (MAX_TOKENS <? len toks).
  - destruct Hcalls as (chunks & outs & fin & _ & -> & _ & [(c & o & -> & _ & Ho)|[_ [e He]]]).
    2: { by rewrite Hok in He. }
    destruct (Hres o Ho) as [Hs Hn]. exists c, o. split_and!; try done.
    rewrite !summarizer_events_app, summarizer_events_pipeline_logs. cbn.
    by rewrite last_snoc.
  - destruct Hcalls as (o & -> & Ho). destruct (Hres o Ho) as [Hs Hn].
    eexists _, o. split_and!; try done.
    by rewrite !summarizer_events_app, summarizer_events_pipeline_logs.
Qed.

Lemma summarizer_calls_events tr :
  summarizer_calls tr = map fst (summarizer_events tr).
Proof.
  induction tr as [|[| |c r|] tr IH]; cbn; try done. by f_equal.
Qed.

(** The cost of a request in calls of the model: one call when the text
    has at most 1024 tokens; otherwise at most one call per chunk and one
    more, that is the number of words over 600, rounded up, plus one,
    and exactly that many when the pipeline returns a summary. *)
Theorem summarizer_call_count t length mode preset_min preset_max toks w :
  dict_get LENGTH_PRESETS length (50, 100) = Ok (preset_min, preset_max) ->
  tokenizer_encode t = Ok toks ->
  let p := produce_summary t length mode w in
  exists tr,
    trace p.2 = trace w ++ tr ∧
    (len toks <= MAX_TOKENS -> len (summarizer_calls tr) = 1) ∧
    (MAX_TOKENS < len toks ->
     len (summarizer_calls tr) <= (len (split t) + 599) / 600 + 1 ∧
     ((exists s n, p.1 = Ok (s, n)) ->
      len (summarizer_calls tr) = (len (split t) + 599) / 600 + 1)).
Proof.
  intros Hb Htok p.
  destruct (produce_summary_events t length mode _ _ _ w Hb Htok)
    as (tr & Htr & _ & _ & Hcalls).
  exists (pipeline_logs t toks ++ tr). split; [done|].
  rewrite summarizer_calls_events, summarizer_events_app,
    summarizer_events_pipeline_logs, app_nil_l.
  destruct (Z.ltb_spec MAX_TOKENS (len toks)) as [Hlong|Hshort].
  - split; [lia|]. intros _.
    destruct Hcalls as (chunks & outs & fin & Hchunks & -> & Hlen & Hfin).
    assert (Hcount : len chunks = (len (split t) + 599) / 600).
    { rewrite chunk_text_windows in Hchunks.
      destruct (chunk_windows t 700 100) as [ws|e] eqn:Hws; [|done].
      injection Hchunks as <-.
      pose proof (chunk_windows_length t 700 100 ws ltac:(lia) ltac:(lia) Hws) as Hl.
      unfold len in *. rewrite length_map, Hl. f_equal; lia. }
    rewrite summarizer_events_app, summarizer_events_zip.
    unfold len in *. rewrite length_map, length_app, length_zip_with, length_map.
    destruct Hfin as [(c & o & -> & Hall & Ho)|[-> [e He]]]; cbn [summarizer_events omap list_omap Datatypes.length].
    + split; [lia|]. intros _. lia.
    + split; [lia|]. intros (s & n & Hs). subst p. by rewrite Hs in He.
  - split; [|lia]. intros _. destruct Hcalls as (o & -> & _). done.
Qed.

End PipelineExtras.

(** ** What the calls of the model are given *)

Section CallParameters.
Context `{Backend}.

#[local] Opaque str fmt.

Lemma do_sample_creative (mode : PyVal) :
  (if eq_str mode (str "creative") then true else false) = true
  <-> mode = PStr (str "creative").
Proof.
  rewrite <- eq_str_spec. by destruct (eq_str mode (str "creative")).
Qed.

Lemma sampling_setting_direct text preset_max preset_min mode :
  sampling_setting (direct_call text preset_max preset_min mode) mode 50 0.9%Q.
Proof. unfold sampling_setting. cbn. split_and!; try done. apply do_sample_creative. Qed.

Lemma sampling_setting_combined text preset_max preset_min mode :
  sampling_setting (combined_call text preset_max preset_min mode) mode 100 0.95%Q.
Proof. unfold sampling_setting. cbn. split_and!; try done. apply do_sample_creative. Qed.

Lemma summarizer_calls_app tr1 tr2 :
  summarizer_calls (tr1 ++ tr2) = summarizer_calls tr1 ++ summarizer_calls tr2.
Proof. apply omap_app. Qed.

Lemma summarizer_calls_zip calls outs :
  summarizer_calls (zip_with EvSummarize calls outs) = take (length outs) calls.
Proof.
  revert outs. induction calls as [|c calls IH]; intros [|o outs]; try done.
  cbn. f_equal. apply IH.
Qed.

Lemma summarizer_calls_pipeline_logs t toks :
  summarizer_calls (pipeline_logs t toks) = [].
Proof. unfold pipeline_logs. by destruct (MAX_TOKENS <? len toks). Qed.

Lemma summarizer_calls_opening_logs t : summarizer_calls (opening_logs t) = [].
Proof. unfold opening_logs. by destruct (len (split t) <? 10). Qed.

Lemma summarizer_calls_error_log e ev : summarizer_calls [error_log e; EvLog INFO ev] = [].
Proof. unfold error_log. by destruct (is_IndexError e). Qed.

Lemma tokenizer_calls_opening_logs t : tokenizer_calls (opening_logs t) = [].
Proof. unfold opening_logs. by destruct (len (split t) <? 10). Qed.

Lemma tokenizer_calls_error_log e ev : tokenizer_calls [error_log e; EvLog INFO ev] = [].
Proof. unfold error_log. by destruct (is_IndexError e). Qed.

(** C3.  The one call of the direct path and the one call of the
    recombination pass both use 5 beams and temperature 1.2 and sample
    exactly when the mode is the string ["creative"]; the direct call
    has top-k 50 and top-p 0.9, the recombination call top-k 100 and
    top-p 0.95, and for the same bounds and mode the two differ in no
    other keyword.  The direct call is the only call of a request of at
    most 1024 tokens; the recombination call is the only call that
    [summarize_combined_chunks] makes, and in a request of more tokens
    it is the call that follows those of the chunks, made whenever the
    pipeline returns a summary. *)
Theorem sampling_parameters t length mode preset_min preset_max toks partials w w' :
  dict_get LENGTH_PRESETS length (50, 100) = Ok (preset_min, preset_max) ->
  tokenizer_encode t = Ok toks ->
  let p := produce_summary t length mode w in
  let r := summarize_combined_chunks partials preset_max preset_min mode w' in
  exists tr c out,
    trace p.2 = trace w ++ tr ∧
    trace r.2 = trace w' ++ [EvSummarize c out] ∧ r.1 = outcome out ∧
    call_text c = join (str " ") partials ∧
    max_length c = preset_max ∧ min_length c = preset_min ∧
    sampling_setting c mode 100 0.95%Q ∧
    (len toks <= MAX_TOKENS ->
     exists d,
       summarizer_calls tr = [d] ∧ call_text d = t ∧
       sampling_setting d mode 50 0.9%Q ∧ same_but_breadth d c) ∧
    (MAX_TOKENS < len toks ->
     exists chunks,
       chunk_text t 700 100 = Ok chunks ∧
       (forall c', summarizer_calls tr !! List.length chunks = Some c' ->
                   sampling_setting c' mode 100 0.95%Q ∧ same_but_breadth c' c) ∧
       (forall s n, p.1 = Ok (s, n) ->
                    is_Some (summarizer_calls tr !! List.length chunks))).
Proof.
  intros Hb Htok p r. subst p r.
  unfold summarize_combined_chunks. rewrite run_summary_text.
  set (c := combined_call (join (str " ") partials) preset_max preset_min mode).
  rewrite (run_produce_summary _ _ _ _ _ _ _ Hb Htok). cbv zeta.
  set (w0 := record_events (pipeline_logs t toks) w).
  pose proof (sampling_setting_combined (join (str " ") partials)
                preset_max preset_min mode) as Hc. fold c in Hc.
  destruct (Z.ltb_spec MAX_TOKENS (len toks)) as [Hlong|Hshort].
  - destruct (chunk_text_defaults t) as [chunks Hchunks]. rewrite Hchunks.
    destruct (for_each_chunks preset_max preset_min chunks w0)
      as (outs & Htr & Hlen & Hres).
    set (calls := map (fun chunk => chunk_call chunk preset_max preset_min) chunks) in *.
    assert (Hcalls : List.length calls = List.length chunks)
      by (subst calls; apply length_map).
    destruct (for_each _ chunks w0) as [[partials'|e] w1]; cbn [fst snd] in *.
    + set (c' := combined_call (join (str " ") partials') preset_max preset_min mode).
      exists (pipeline_logs t toks ++ zip_with EvSummarize calls outs
              ++ [EvSummarize c' (summarizer c' (rng w1)).1]),
        c, (summarizer c (rng w')).1.
      destruct Hres as [Hl _].
      assert (Hlook : summarizer_calls
                        (pipeline_logs t toks ++ zip_with EvSummarize calls outs
                         ++ [EvSummarize c' (summarizer c' (rng w1)).1])
                      !! List.length chunks = Some c').
      { rewrite !summarizer_calls_app, summarizer_calls_pipeline_logs,
          summarizer_calls_zip. cbn [app].
        rewrite take_ge by lia. apply list_lookup_middle. lia. }
      split_and!; try done.
      * cbn [after_call trace]. rewrite Htr. subst w0.
        cbn [record_events trace]. by rewrite <- !app_assoc.
      * lia.
      * intros _. exists chunks. split_and!; [done| |by eexists].
        intros c'' Hc''. rewrite Hlook in Hc''. injection Hc'' as <-.
        split; [apply sampling_setting_combined|done].
    + exists (pipeline_logs t toks ++ zip_with EvSummarize calls outs),
        c, (summarizer c (rng w')).1.
      split_and!; try done.
      * rewrite Htr. subst w0. cbn [record_events trace]. by rewrite <- !app_assoc.
      * lia.
      * intros _. exists chunks. split_and!; [done| |done].
        intros c''. rewrite !summarizer_calls_app, summarizer_calls_pipeline_logs,
          summarizer_calls_zip. cbn [app].
        rewrite lookup_take_ge by lia. done.
  - set (d := direct_call t preset_max preset_min mode).
    exists (pipeline_logs t toks ++ [EvSummarize d (summarizer d (rng w0)).1]),
      c, (summarizer c (rng w')).1.
    split_and!; try done.
    + subst w0. cbn [snd after_call record_events trace rng].
      by rewrite <- !app_assoc.
    + intros _. exists d. split_and!; try done.
      * by rewrite summarizer_calls_app, summarizer_calls_pipeline_logs.
      * apply sampling_setting_direct.
    + lia.
Qed.

(** *** The bounds *)

Lemma request_bounds_cases data :
  match data !! str "length" with
  | Some v =>
      if hashable v
      then request_bounds data = Ok (specified_bounds (Some v))
      else exists e, request_bounds data = Raise e ∧ exc_class e = TypeError
  | None => request_bounds data = Ok (50, 100)
  end.
Proof.
  unfold request_bounds.
  destruct (data !! str "length") as [v|]; [|done]. simpl.
  destruct v; simpl; try done.
  - by rewrite LENGTH_PRESETS_lookup.
  - eexists. by split.
  - eexists. by split.
Qed.

Lemma call_bounds_calls b tr :
  Forall (call_bounds b) tr ->
  Forall (fun c => (min_length c, max_length c) = b) (summarizer_calls tr).
Proof.
  induction 1 as [|ev tr Hev _ IH]; [constructor|].
  destruct ev; cbn; try done. by constructor.
Qed.

(** Every call of the pipeline is given the bounds that were looked up. *)
Lemma produce_summary_call_bounds t length mode preset_min preset_max :
  dict_get LENGTH_PRESETS length (50, 100) = Ok (preset_min, preset_max) ->
  emits (call_bounds (preset_min, preset_max)) (produce_summary t length mode).
Proof.
  intros Hb w. unfold produce_summary. rewrite run_bind. unfold lift at 1.
  rewrite Hb. cbv beta iota.
  apply emits_bind.
  { unfold encode. apply emits_bind; [by apply emits_emit|]. intros _.
    apply emits_lift. }
  intros tokens.
  apply emits_bind; [by apply emits_emit|]. intros _.
  destruct (MAX_TOKENS <? len tokens).
  - apply emits_bind; [by apply emits_emit|]. intros _.
    apply emits_bind; [apply emits_lift|]. intros chunks.
    apply emits_bind.
    { apply emits_for_each. intros chunk. by apply emits_summary_text. }
    intros partials.
    apply emits_bind; [by apply emits_summary_text|]. intros summary.
    apply emits_ret.
  - apply emits_bind; [by apply emits_summary_text|]. intros summary.
    apply emits_ret.
Qed.

(** Once the text is tokenized the pipeline calls the model. *)
Lemma produce_summary_calls t length mode preset_min preset_max toks w tr :
  dict_get LENGTH_PRESETS length (50, 100) = Ok (preset_min, preset_max) ->
  tokenizer_encode t = Ok toks ->
  trace (produce_summary t length mode w).2 = trace w ++ tr ->
  summarizer_calls tr ≠ [].
Proof.
  intros Hb Htok. rewrite (run_produce_summary _ _ _ _ _ _ _ Hb Htok). cbv zeta.
  set (w0 := record_events (pipeline_logs t toks) w).
  destruct (MAX_TOKENS <? len toks).
  - destruct (chunk_text_defaults t) as [chunks Hchunks]. rewrite Hchunks.
    destruct (for_each_chunks preset_max preset_min chunks w0)
      as (outs & Htr & Hlen & Hres).
    destruct (for_each _ chunks w0) as [[partials|e] w1]; cbn [fst snd] in *.
    + cbn [after_call trace]. rewrite Htr. subst w0. cbn [record_events trace].
      rewrite <- !app_assoc. intros <-%app_inv_head.
      rewrite !summarizer_calls_app. cbn. intros Hnil.
      apply app_eq_nil in Hnil as [_ Hnil]. by apply app_eq_nil in Hnil as [_ Hnil].
    + rewrite Htr. subst w0. cbn [record_events trace].
      rewrite <- !app_assoc. intros <-%app_inv_head.
      rewrite summarizer_calls_app, summarizer_calls_pipeline_logs, summarizer_calls_zip.
      cbn [app]. destruct Hres as (o & Hlast & _).
      destruct outs as [|o' outs]; [done|]. destruct chunks as [|chunk chunks]; [cbn in Hlen; lia|].
      done.
  - cbn [snd after_call trace]. subst w0. cbn [record_events trace].
    rewrite <- !app_assoc. intros <-%app_inv_head.
    rewrite summarizer_calls_app, summarizer_calls_pipeline_logs. done.
Qed.

(** C7 (amended).  In a request with a text, the bounds that every call
    of the model is given are (15, 30) for the length ["short"],
    (50, 100) for ["medium"], (100, 180) for ["long"], and (50, 100) for
    a missing length and for any other string, number, boolean or null;
    and the model is called as soon as the text is tokenized.  A length
    that is a JSON array or object is not looked up: the lookup raises a
    [TypeError], which the handler answers with status 500 and the
    message of the exception, without calling the tokenizer or the
    model and without storing anything. *)
Theorem request_bounds_spec data w t :
  valid_text data t ->
  let length := data !! str "length" in
  let r := summarize data w in
  specified_bounds (Some (PStr (str "short"))) = (15, 30) ∧
  specified_bounds (Some (PStr (str "medium"))) = (50, 100) ∧
  specified_bounds (Some (PStr (str "long"))) = (100, 180) ∧
  specified_bounds None = (50, 100) ∧
  exists tr,
    trace r.2 = trace w ++ tr ∧
    if from_option hashable true length
    then
      request_bounds data = Ok (specified_bounds length) ∧
      Forall (fun c => (min_length c, max_length c) = specified_bounds length)
             (summarizer_calls tr) ∧
      (forall toks, tokenizer_encode t = Ok toks -> summarizer_calls tr ≠ [])
    else
      exists e,
        request_bounds data = Raise e ∧ exc_class e = TypeError ∧
        r.1 = Ok (server_error (exc_msg e)) ∧
        status (server_error (exc_msg e)) = 500 ∧
        tokenizer_calls tr = [] ∧ summarizer_calls tr = [] ∧
        store r.2 = store w.
Proof.
  intros [Ht Hne] length r. subst r. split_and!; [done..|].
  rewrite (run_summarize_str _ _ _ Ht Hne). cbv zeta.
  set (w0 := record_events (opening_logs t) w).
  set (lengthv := default (PStr (str "medium")) (data !! str "length")).
  set (mode := default (PStr (str "reliable")) (data !! str "mode")).
  pose proof (request_bounds_cases data) as Hcases. fold length in Hcases.
  assert (Hb : if from_option hashable true length
               then request_bounds data = Ok (specified_bounds length)
               else exists e, request_bounds data = Raise e ∧ exc_class e = TypeError).
  { destruct length as [v|]; [|done]. cbn [from_option]. exact Hcases. }
  clear Hcases. destruct (from_option hashable true length).
  - destruct (specified_bounds length) as [preset_min preset_max] eqn:Hsb.
    unfold request_bounds in Hb. fold lengthv in Hb.
    destruct (produce_summary_call_bounds t lengthv mode _ _ Hb w0)
      as (tr1 & Htr & Hall).
    pose proof (fun toks Htok =>
                  produce_summary_calls t lengthv mode _ _ toks w0 tr1 Hb Htok Htr)
      as Hcalls.
    apply call_bounds_calls in Hall.
    subst w0. cbn [record_events trace] in Htr.
    destruct (produce_summary t lengthv mode _) as [[[s n]|e] w1]; cbn [fst snd] in *.
    + destruct (store_refuses _ _) as [e|].
      * exists (opening_logs t ++ tr1 ++ [error_log e; completed]).
        cbn [fst snd record_events trace]. rewrite Htr. split; [by rewrite <- !app_assoc|].
        split; [done|].
        rewrite !summarizer_calls_app, summarizer_calls_opening_logs.
        unfold completed. rewrite summarizer_calls_error_log, app_nil_r. cbn [app].
        split; [done|]. exact Hcalls.
      * eexists (opening_logs t ++ tr1 ++ [EvSave _; _; completed]).
        cbn [fst snd stored trace]. rewrite Htr. split; [by rewrite <- !app_assoc|].
        split; [done|].
        rewrite !summarizer_calls_app, summarizer_calls_opening_logs.
        cbn [summarizer_calls omap list_omap app]. rewrite app_nil_r.
        split; [done|]. exact Hcalls.
    + exists (opening_logs t ++ tr1 ++ [error_log e; completed]).
      cbn [fst snd record_events trace]. rewrite Htr. split; [by rewrite <- !app_assoc|].
      split; [done|].
      rewrite !summarizer_calls_app, summarizer_calls_opening_logs.
      unfold completed. rewrite summarizer_calls_error_log, app_nil_r. cbn [app].
      split; [done|]. exact Hcalls.
  - destruct Hb as (e & Hb & Hclass). exists (opening_logs t ++ [error_log e; completed]).
    pose proof Hb as Hb'. unfold request_bounds in Hb'. fold lengthv in Hb'.
    rewrite (run_produce_summary_bounds_fail _ _ _ _ _ Hb'). cbn [fst snd].
    subst w0. rewrite record_events_app. cbn [record_events trace store].
    split; [done|]. exists e.
    assert (Herr : error_response e = server_error (exc_msg e)).
    { unfold error_response, is_IndexError. by rewrite Hclass. }
    rewrite Herr. split_and!; try done.
    + rewrite tokenizer_calls_app, tokenizer_calls_opening_logs.
      unfold completed. by rewrite tokenizer_calls_error_log.
    + rewrite summarizer_calls_app, summarizer_calls_opening_logs.
      unfold completed. by rewrite summarizer_calls_error_log.
Qed.

End CallParameters.

(** A direct request of the stand-in backend, beside a recombination of
    two partial summaries. *)
Lemma sampling_parameters_witness :
  let t := str "hello world" in
  let mode := PStr (str "creative") in
  let toks := repeat 0 800 in
  let partials := [str "first part."; str "second part."] in
  let p := produce_summary t (PStr (str "long")) mode (@fresh stub tt) in
  let r := summarize_combined_chunks partials 180 100 mode (@fresh stub tt) in
  exists tr c out,
    trace p.2 = trace (@fresh stub tt) ++ tr ∧
    trace r.2 = trace (@fresh stub tt) ++ [EvSummarize c out] ∧ r.1 = outcome out ∧
    call_text c = join (str " ") partials ∧
    max_length c = 180 ∧ min_length c = 100 ∧
    sampling_setting c mode 100 0.95%Q ∧
    (len toks <= MAX_TOKENS ->
     exists d,
       summarizer_calls tr = [d] ∧ call_text d = t ∧
       sampling_setting d mode 50 0.9%Q ∧ same_but_breadth d c) ∧
    (MAX_TOKENS < len toks ->
     exists chunks,
       chunk_text t 700 100 = Ok chunks ∧
       (forall c', summarizer_calls tr !! length chunks = Some c' ->
                   sampling_setting c' mode 100 0.95%Q ∧ same_but_breadth c' c) ∧
       (forall s n, p.1 = Ok (s, n) ->
                    is_Some (summarizer_calls tr !! length chunks))).
Proof.
  intros t mode toks partials.
  apply (@sampling_parameters stub t (PStr (str "long")) mode 100 180 toks partials
           (@fresh stub tt) (@fresh stub tt)).
  - by vm_compute.
  - by vm_compute.
Defined.

(** A request for a short summary of three words. *)
Lemma request_bounds_spec_witness :
  let data := request "hello big world" "short" "reliable" in
  let length := data !! str "length" in
  let r := summarize data (@fresh stub tt) in
  specified_bounds (Some (PStr (str "short"))) = (15, 30) ∧
  specified_bounds (Some (PStr (str "medium"))) = (50, 100) ∧
  specified_bounds (Some (PStr (str "long"))) = (100, 180) ∧
  specified_bounds None = (50, 100) ∧
  exists tr,
    trace r.2 = trace (@fresh stub tt) ++ tr ∧
    if from_option hashable true length
    then
      request_bounds data = Ok (specified_bounds length) ∧
      Forall (fun c => (min_length c, max_length c) = specified_bounds length)
             (summarizer_calls tr) ∧
      (forall toks, tokenizer_encode (str "hello big world") = Ok toks ->
                    summarizer_calls tr ≠ [])
    else
      exists e,
        request_bounds data = Raise e ∧ exc_class e = TypeError ∧
        r.1 = Ok (server_error (exc_msg e)) ∧
        status (server_error (exc_msg e)) = 500 ∧
        tokenizer_calls tr = [] ∧ summarizer_calls tr = [] ∧
        store r.2 = store (@fresh stub tt).
Proof.
  intros data.
  apply (@request_bounds_spec stub data (@fresh stub tt) (str "hello big world")).
  split; [reflexivity|discriminate].
Defined.

Example run_short_bounds :
  map (fun c => (min_length c, max_length c))
      (summarizer_calls
         (trace (summarize (request "hello big world" "short" "reliable")
                           (@fresh stub tt)).2))
  = [(15, 30); (15, 30)].
Proof. by vm_compute. Qed.


Section ResponseExtras.
Context `{Backend}.

#[local] Opaque str fmt.

(** A request stopped before the model is reached.  When the bounds
    cannot be looked up the handler answers with the error and the
    tokenizer is not called; when the tokenizer raises the handler
    answers with its error and the summarizer is not called.  Either way
    the store is as it was. *)
Theorem early_failures data w t :
  valid_text data t ->
  (forall e,
      request_bounds data = Raise e ->
      summarize data w
      = (Ok (error_response e),
         record_events (opening_logs t ++ [error_log e; completed]) w)) ∧
  (forall b e,
      request_bounds data = Ok b ->
      tokenizer_encode t = Raise e ->
      summarize data w
      = (Ok (error_response e),
         record_events (opening_logs t ++ [EvTokenize t; error_log e; completed]) w)).
Proof.
  intros [Ht Hne]. unfold request_bounds. split.
  - intros e Hb. rewrite (run_summarize_str _ _ _ Ht Hne). cbv zeta.
    rewrite (run_produce_summary_bounds_fail _ _ _ _ _ Hb). cbn [fst snd].
    by rewrite record_events_app.
  - intros b e Hb Htok. rewrite (run_summarize_str _ _ _ Ht Hne). cbv zeta.
    rewrite (run_produce_summary_tokenizer_fail _ _ _ _ _ _ Hb Htok). cbn [fst snd].
    rewrite !record_events_app. by rewrite <- ?app_assoc.
Qed.

(** A summary that cannot be saved is lost: when the store refuses the
    record the handler answers with the error of the store, although the
    last call of the model had produced the summary; the store is as it
    was. *)
Theorem save_failure data w t s n e :
  valid_text data t ->
  (produce_summary t (default (PStr (str "medium")) (data !! str "length"))
                   (default (PStr (str "reliable")) (data !! str "mode"))
                   (record_events (opening_logs t) w)).1 = Ok (s, n) ->
  store_refuses (new_record t s (clock w)) (store w) = Some e ->
  (summarize data w).1 = Ok (error_response e) ∧
  store (summarize data w).2 = store w ∧
  exists tr c o,
    trace (summarize data w).2 = trace w ++ tr ∧
    last (summarizer_events tr) = Some (c, o) ∧ outcome o = Ok s.
Proof.
  intros [Ht Hne] Hok Hrefuse.
  destruct (produce_summary_ok _ _ _ _ _ _ Hok)
    as (toks & tr & c & o & _ & _ & Htr & Hst & Hcl & Hlast & Ho).
  cbn [record_events trace store clock] in Htr, Hst, Hcl.
  rewrite (run_summarize_str _ _ _ Ht Hne). cbv zeta.
  rewrite Hok, Hst, Hcl, Hrefuse. cbn [fst snd record_events store trace].
  split_and!; [done..|].
  exists (opening_logs t ++ tr ++ [error_log e; completed]), c, o.
  split_and!; [rewrite Htr; by rewrite <- !app_assoc| |done].
  unfold completed.
  by rewrite !summarizer_events_app, summarizer_events_opening_logs,
    summarizer_events_error_log, app_nil_r, app_nil_l.
Qed.

(** What a 200 response holds.  The text of the request is a non-empty
    string; the summary is the outcome of the last call of the model;
    the title is made from that summary; the lengths are the numbers of
    words of the text and of the summary; the token count is that of the
    tokenizer on the text; and the one record that joins the store holds
    the text as it was sent, the same summary and title, the time of the
    request, success and no error. *)
Theorem success_contents data w resp :
  (summarize data w).1 = Ok resp ->
  status resp = 200 ->
  exists t s toks tr c o,
    valid_text data t ∧
    tokenizer_encode t = Ok toks ∧
    trace (summarize data w).2 = trace w ++ tr ∧
    last (summarizer_events tr) = Some (c, o) ∧ outcome o = Ok s ∧
    resp = success (make_title s) s (len (split t)) (len (split s)) (len toks) ∧
    store (summarize data w).2
    = store w ++ [{| rec_text := t; rec_summary := s; rec_title := make_title s;
                     rec_createdAt := clock w; rec_success := true;
                     rec_error := str "" |}].
Proof.
  destruct (text_cases data) as [Hf|[(v & Hv & Ht & Hns)|(t & Ht & Hne)]].
  - rewrite (run_summarize_falsy _ _ Hf). intros [= <-] Hs.
    vm_compute in Hs. discriminate Hs.
  - by rewrite (run_summarize_not_str _ _ _ Hv Ht Hns).
  - rewrite (run_summarize_str _ _ _ Ht Hne). cbv zeta.
    destruct (produce_summary t _ _ _).1 as [[s n]|e] eqn:Hok.
    2: { cbn [fst]. intros [= <-]. by rewrite (proj1 (error_response_spec e)). }
    destruct (produce_summary_ok _ _ _ _ _ _ Hok)
      as (toks & tr & c & o & Htok & -> & Htr & Hst & Hcl & Hlast & Ho).
    cbn [record_events trace store clock] in Htr, Hst, Hcl.
    rewrite Hst, Hcl.
    destruct (store_refuses _ _) as [e|].
    { cbn [fst]. intros [= <-]. by rewrite (proj1 (error_response_spec e)). }
    cbn [fst snd stored store trace]. intros [= <-] _.
    exists t, s, toks. eexists. exists c, o. rewrite Htr, Hst.
    split_and!; [done|done|by rewrite <- !app_assoc| |done|done|done].
    rewrite !summarizer_events_app, summarizer_events_opening_logs.
    cbn [summarizer_events omap list_omap]. by rewrite app_nil_r, app_nil_l.
Qed.

Lemma response_shapes_of resp :
  resp = bad_request ∨ (exists msg, resp = server_error msg)
  ∨ (exists title summary a b c, resp = success title summary a b c) ->
  (status resp = 200 ∨ status resp = 400 ∨ status resp = 500) ∧
  body resp !! str "ok" = (if status resp =? 400 then Some (PBool false) else None) ∧
  (is_Some (body resp !! str "error") <-> status resp ≠ 200) ∧
  (is_Some (body resp !! str "title") <-> status resp = 200) ∧
  (is_Some (body resp !! str "summary") <-> status resp = 200) ∧
  (is_Some (body resp !! str "token_count") <-> status resp = 200).
Proof.
  intros [->|[[msg ->]|(title & summary & a & b & c & ->)]].
  all: repeat match goal with
       | |- context [body ?r !! ?k] =>
           let v := eval vm_compute in (body r !! k) in
           let E := fresh in
           assert (E : body r !! k = v) by (vm_compute; reflexivity);
           rewrite E; clear E
       end.
  all: cbn [status bad_request server_error success Z.eqb Pos.eqb].
  - split_and!; try done; try (by right; left).
    all: try (split; [by intros [? [=]]|done]).
    all: try (split; [done|by eexists]).
  - split_and!; try done; try (by right; right).
    all: try (split; [by intros [? [=]]|done]).
    all: try (split; [done|by eexists]).
  - split_and!; try done; try (by left).
    all: try (split; [by intros [? [=]]|done]).
    all: try (split; [done|by eexists]).
Qed.

(** The three shapes of a response.  The status is 200, 400 or 500; the
    field [ok] is present, and false, in the 400 response only; the field
    [error] is present exactly when the status is not 200, and the fields
    [title], [summary] and [token_count] exactly when it is 200. *)
Theorem response_shapes data w resp :
  (summarize data w).1 = Ok resp ->
  (status resp = 200 ∨ status resp = 400 ∨ status resp = 500) ∧
  body resp !! str "ok" = (if status resp =? 400 then Some (PBool false) else None) ∧
  (is_Some (body resp !! str "error") <-> status resp ≠ 200) ∧
  (is_Some (body resp !! str "title") <-> status resp = 200) ∧
  (is_Some (body resp !! str "summary") <-> status resp = 200) ∧
  (is_Some (body resp !! str "token_count") <-> status resp = 200).
Proof.
  intros Hresp. apply response_shapes_of. revert Hresp.
  assert (Herr : forall e, exists msg, error_response e = server_error msg).
  { intros e. unfold error_response. destruct (is_IndexError e); by eexists. }
  destruct (text_cases data) as [Hf|[(v & Hv & Ht & Hns)|(t & Ht & Hne)]].
  - rewrite (run_summarize_falsy _ _ Hf). intros [= <-]. by left.
  - by rewrite (run_summarize_not_str _ _ _ Hv Ht Hns).
  - rewrite (run_summarize_str _ _ _ Ht Hne). cbv zeta.
    destruct (produce_summary t _ _ _).1 as [[s n]|e].
    2: { cbn [fst]. intros [= <-]. right; left. apply Herr. }
    destruct (store_refuses _ _) as [e|].
    { cbn [fst]. intros [= <-]. right; left. apply Herr. }
    cbn [fst]. intros [= <-]. right; right. unfold success_response.
    by do 5 eexists.
Qed.

End ResponseExtras.

Section RecombinationExtras.
Context `{Backend}.

(** The recombination pass makes one call of the model, with the bounds
    it was given, on a text whose words are the words of the partial
    summaries, in order: an empty partial summary adds nothing, and with
    no partial summary at all the model is called on the empty string. *)
Theorem recombination_input chunks preset_max preset_min mode w :
  let c := combined_call (join (str " ") chunks) preset_max preset_min mode in
  summarize_combined_chunks chunks preset_max preset_min mode w
  = (outcome (summarizer c (rng w)).1, after_call c w) ∧
  split (call_text c) = concat (map split chunks) ∧
  max_length c = preset_max ∧ min_length c = preset_min.
Proof.
  cbv zeta. split_and!; [|apply split_join_concat|done|done].
  unfold summarize_combined_chunks. apply run_summary_text.
Qed.

End RecombinationExtras.

(** ** The further properties on concrete requests *)

Lemma summarizer_call_count_witness :
  let t := str "hello big world" in
  let toks := repeat 0 1200 in
  let p := @produce_summary stub t (PStr (str "short")) (PStr (str "creative"))
                            (@fresh stub tt) in
  exists tr,
    trace p.2 = trace (@fresh stub tt) ++ tr ∧
    (len toks <= MAX_TOKENS -> len (summarizer_calls tr) = 1) ∧
    (MAX_TOKENS < len toks ->
     len (summarizer_calls tr) <= (len (split t) + 599) / 600 + 1 ∧
     ((exists s n, p.1 = Ok (s, n)) ->
      len (summarizer_calls tr) = (len (split t) + 599) / 600 + 1)).
Proof.
  intros t toks.
  apply (@summarizer_call_count stub t (PStr (str "short")) (PStr (str "creative"))
           15 30 toks (@fresh stub tt)).
  - by vm_compute.
  - by vm_compute.
Defined.

(** A length that is an array stops the request before the tokenizer. *)
Lemma early_failures_witness :
  let data := <[str "length" := PList []]> (request "hello world" "" "reliable") in
  let t := str "hello world" in
  let w := @fresh stub tt in
  (forall e,
      request_bounds data = Raise e ->
      @summarize stub data w
      = (Ok (error_response e),
         record_events (opening_logs t ++ [error_log e; completed]) w)) ∧
  (forall b e,
      request_bounds data = Ok b ->
      @tokenizer_encode stub t = Raise e ->
      @summarize stub data w
      = (Ok (error_response e),
         record_events (opening_logs t ++ [EvTokenize t; error_log e; completed]) w)).
Proof.
  intros data t w.
  apply (@early_failures stub data w t).
  split; by vm_compute.
Defined.

(** A store that is down: the summary of the two words is produced and
    then lost. *)
Lemma save_failure_witness :
  let e := mkExc (OtherException (str "ServerSelectionTimeoutError"))
                 (str "connection refused") in
  let H := refusing_backend e in
  let data := request "hello world" "short" "reliable" in
  let w := @fresh H tt in
  (@summarize H data w).1 = Ok (error_response e) ∧
  store (@summarize H data w).2 = store w ∧
  exists tr c o,
    trace (@summarize H data w).2 = trace w ++ tr ∧
    last (summarizer_events tr) = Some (c, o) ∧ outcome o = Ok (str "hello world").
Proof.
  intros e H data w.
  apply (@save_failure H data w (str "hello world") (str "hello world") 800 e).
  - split; by vm_compute.
  - by vm_compute.
  - by vm_compute.
Defined.

Lemma success_contents_witness :
  let data := request "hello  world" "short" "reliable" in
  let w := @fresh stub tt in
  let resp := success (str "hello world...") (str "hello world") 2 2 800 in
  exists t s toks tr c o,
    valid_text data t ∧
    @tokenizer_encode stub t = Ok toks ∧
    trace (@summarize stub data w).2 = trace w ++ tr ∧
    last (summarizer_events tr) = Some (c, o) ∧ outcome o = Ok s ∧
    resp = success (make_title s) s (len (split t)) (len (split s)) (len toks) ∧
    store (@summarize stub data w).2
    = store w ++ [{| rec_text := t; rec_summary := s; rec_title := make_title s;
                     rec_createdAt := clock w; rec_success := true;
                     rec_error := str "" |}].
Proof.
  intros data w resp.
  apply (@success_contents stub data w resp).
  - by vm_compute.
  - by vm_compute.
Defined.

Lemma response_shapes_witness :
  let data := request "hello  world" "short" "reliable" in
  let resp := success (str "hello world...") (str "hello world") 2 2 800 in
  (status resp = 200 ∨ status resp = 400 ∨ status resp = 500) ∧
  body resp !! str "ok" = (if status resp =? 400 then Some (PBool false) else None) ∧
  (is_Some (body resp !! str "error") <-> status resp ≠ 200) ∧
  (is_Some (body resp !! str "title") <-> status resp = 200) ∧
  (is_Some (body resp !! str "summary") <-> status resp = 200) ∧
  (is_Some (body resp !! str "token_count") <-> status resp = 200).
Proof.
  intros data resp.
  apply (@response_shapes stub data (@fresh stub tt) resp).
  by vm_compute.
Defined.

(** A tokenizer that raises: the request is answered with its message
    and the model is never called. *)
Example run_tokenizer_error :
  let H := untokenizing_backend (mkExc (OtherException (str "RuntimeError")) (str "bad input")) in
  let r := @summarize H (request "hello world" "short" "reliable") (@fresh H tt) in
  r.1 = Ok (server_error (str "bad input")) ∧
  tokenizer_calls (trace r.2) = [str "hello world"] ∧
  summarizer_calls (trace r.2) = [] ∧
  store r.2 = [].
Proof. by vm_compute. Qed.

(** ** The configuration (config.py) *)

Lemma split_on_from_nonempty sep cur s : split_on_from sep cur s ≠ [].
Proof.
  revert cur. induction s as [|c s IH]; intros cur; cbn; [done|].
  destruct (c =? sep)%N; [done|apply IH].
Qed.

Lemma join_cons sep x l :
  l ≠ [] -> join sep (x :: l) = x ++ sep ++ join sep l.
Proof. by destruct l. Qed.

Lemma join_split_on_from sep cur s :
  join [sep] (split_on_from sep cur s) = rev cur ++ s.
Proof.
  revert cur. induction s as [|c s IH]; intros cur; cbn [split_on_from].
  - cbn [join]. by rewrite app_nil_r.
  - destruct (N.eqb_spec c sep) as [->|Hne].
    + rewrite join_cons by apply split_on_from_nonempty.
      rewrite IH. done.
    + rewrite IH. cbn [rev]. by rewrite <- app_assoc.
Qed.

Lemma split_on_from_fields sep cur s :
  Forall (fun c => c ≠ sep) cur ->
  Forall (fun field => Forall (fun c => c ≠ sep) field) (split_on_from sep cur s).
Proof.
  revert cur. induction s as [|c s IH]; intros cur Hcur; cbn [split_on_from].
  - constructor; [by apply Forall_rev|constructor].
  - destruct (N.eqb_spec c sep) as [->|Hne].
    + constructor; [by apply Forall_rev|]. by apply IH.
    + apply IH. by constructor.
Qed.

Lemma split_on_from_length sep cur s :
  length (split_on_from sep cur s)
  = S (length (filter (fun c => c = sep) s)).
Proof.
  revert cur. induction s as [|c s IH]; intros cur; cbn [split_on_from]; [done|].
  rewrite filter_cons. destruct (N.eqb_spec c sep) as [->|Hne].
  - rewrite decide_True by done. cbn. by rewrite IH.
  - rewrite decide_False by done. apply IH.
Qed.

Section ConfigurationProperties.
Context `{Runtime}.

(** The allowed origins are the fields of the variable between its
    commas: joining them with commas gives the variable back; there is
    one field more than there are commas, so the list is never empty and
    an unset or empty variable gives the one origin [""]; and no field
    holds a comma.  Nothing is trimmed. *)
Theorem cors_allowed_origins_fields env :
  let value := getenv env (str "CORS_ALLOWED_ORIGINS") (str "") in
  let origins := config_CORS_ALLOWED_ORIGINS env in
  join (str ",") origins = value ∧
  length origins = S (length (filter (fun c => c = 44%N) value)) ∧
  Forall (fun origin => Forall (fun c => c ≠ 44%N) origin) origins ∧
  (value = [] -> origins = [[]]).
Proof.
  cbv zeta. unfold config_CORS_ALLOWED_ORIGINS, split_on. split_and!.
  - change (str ",") with [44%N]. by rewrite join_split_on_from.
  - apply split_on_from_length.
  - apply split_on_from_fields. constructor.
  - by intros ->.
Qed.

Lemma ascii_lower_letter c x :
  (97 <= x <= 122)%N ->
  ascii_lower c = x <-> c = x ∨ c = (x - 32)%N.
Proof.
  intros Hx. unfold ascii_lower.
  destruct (N.leb_spec 65 c), (N.leb_spec c 90); cbn; lia.
Qed.

(** Debugging is on exactly when the variable [DEBUG] reads [true] in
    any mix of upper and lower case (for a value in ASCII); it is off
    when the variable is unset, and off for [1], [yes] or [on]. *)
Theorem config_DEBUG_true env :
  (env !! str "DEBUG" = None -> config_DEBUG env = false) ∧
  (forall v,
      env !! str "DEBUG" = Some v -> is_ascii v = true ->
      (config_DEBUG env = true <->
       exists c1 c2 c3 c4,
         v = [c1; c2; c3; c4] ∧
         (c1 = 116 ∨ c1 = 84)%N ∧ (c2 = 114 ∨ c2 = 82)%N ∧
         (c3 = 117 ∨ c3 = 85)%N ∧ (c4 = 101 ∨ c4 = 69)%N)).
Proof.
  unfold config_DEBUG, getenv. split.
  - intros ->. by vm_compute.
  - intros v -> Hascii. cbn [default from_option id]. unfold lower.
    rewrite Hascii, bool_decide_eq_true. change (str "true") with [116; 114; 117; 101]%N.
    split.
    + destruct v as [|c1 [|c2 [|c3 [|c4 [|c5 v]]]]]; try done.
      cbn [map]. intros [= H1 H2 H3 H4].
      apply (ascii_lower_letter _ 116) in H1; [|lia].
      apply (ascii_lower_letter _ 114) in H2; [|lia].
      apply (ascii_lower_letter _ 117) in H3; [|lia].
      apply (ascii_lower_letter _ 101) in H4; [|lia].
      by exists c1, c2, c3, c4.
    + intros (c1 & c2 & c3 & c4 & -> & H1 & H2 & H3 & H4). cbn [map].
      apply (ascii_lower_letter _ 116) in H1; [|lia].
      apply (ascii_lower_letter _ 114) in H2; [|lia].
      apply (ascii_lower_letter _ 117) in H3; [|lia].
      apply (ascii_lower_letter _ 101) in H4; [|lia].
      by rewrite H1, H2, H3, H4.
Qed.

(** The configuration loads unless [FLASK_PORT] is set to a value that
    [int] refuses, in which case it raises what [int] raises; with the
    variable unset the port is 5000. *)
Lemma load_config_port env :
  (forall e, load_config env = Raise e <->
             exists v, env !! str "FLASK_PORT" = Some v ∧ py_int v = Raise e) ∧
  (forall config, load_config env = Ok config ->
                  config_FLASK_PORT env = Ok (FLASK_PORT config)) ∧
  (env !! str "FLASK_PORT" = None ->
   exists config, load_config env = Ok config ∧ FLASK_PORT config = 5000).
Proof.
  unfold load_config, config_FLASK_PORT. split_and!.
  - intros e. destruct (env !! str "FLASK_PORT") as [v|].
    + destruct (py_int v) as [port|e'] eqn:Hv; cbn.
      * split; [done|]. intros (v' & [= <-] & Hr). by rewrite Hv in Hr.
      * split.
        -- intros [= ->]. by exists v.
        -- intros (v' & [= <-] & Hr). rewrite Hv in Hr. by injection Hr as ->.
    + cbn. split; [done|]. by intros (v & ? & _).
  - intros config. destruct (env !! str "FLASK_PORT") as [v|].
    + destruct (py_int v); cbn; [|done]. by intros [= <-].
    + cbn. by intros [= <-].
  - intros ->. cbn. by eexists.
Qed.

(** The database settings of the application come from the environment,
    not from the configuration: each is the configuration's value when
    the variable is set, and is missing, where the configuration has its
    default, when the variable is not. *)
Theorem app_mongo_settings env config :
  load_config env = Ok config ->
  let settings := app_settings env config in
  (app_MONGO_DBNAME settings = Some (MONGO_DBNAME config)
   <-> is_Some (env !! str "MONGO_DBNAME")) ∧
  (app_MONGO_URI settings = Some (MONGO_DBURI config)
   <-> is_Some (env !! str "MONGO_DBURI")) ∧
  (env !! str "MONGO_DBNAME" = None ->
   app_MONGO_DBNAME settings = None ∧ MONGO_DBNAME config = str "summarizer_db") ∧
  (env !! str "MONGO_DBURI" = None ->
   app_MONGO_URI settings = None ∧ MONGO_DBURI config = str "mongodb://localhost:27017").
Proof.
  unfold load_config. destruct (config_FLASK_PORT env) as [port|e]; [|done].
  cbn. intros [= <-]. cbn. unfold getenv.
  split_and!.
  - destruct (env !! str "MONGO_DBNAME"); cbn; [by split; eauto|].
    split; [done|by intros [? ?]].
  - destruct (env !! str "MONGO_DBURI"); cbn; [by split; eauto|].
    split; [done|by intros [? ?]].
  - by intros ->.
  - by intros ->.
Qed.

End ConfigurationProperties.

(** ** The JSON encoder (app.py, lines 22-28) *)

Lemma digit_inj x y : 0 <= x -> 0 <= y -> digit x = digit y -> x = y.
Proof. unfold digit. lia. Qed.

Lemma digit_ltb x y : 0 <= x -> 0 <= y -> (digit x <? digit y)%N = (x <? y).
Proof.
  intros Hx Hy. unfold digit.
  destruct (N.ltb_spec (Z.to_N (48 + x)) (Z.to_N (48 + y))), (Z.ltb_spec x y); lia.
Qed.

Lemma pad2_inj n m : 0 <= n <= 99 -> 0 <= m <= 99 -> pad2 n = pad2 m -> n = m.
Proof.
  intros Hn Hm [= H1 H2]. apply digit_inj in H1, H2.
  all: try (apply Z.div_pos; lia). all: try (apply Z.mod_pos_bound; lia).
  rewrite (Z.div_mod n 10), (Z.div_mod m 10) by lia. by rewrite H1, H2.
Qed.

Lemma pad4_inj n m : 0 <= n <= 9999 -> 0 <= m <= 9999 -> pad4 n = pad4 m -> n = m.
Proof.
  intros Hn Hm [= H1 H2 H3 H4]. apply digit_inj in H1, H2, H3, H4.
  all: try (apply Z.div_pos; lia). all: try (apply Z.mod_pos_bound; lia).
  revert H1 H2 H3 H4. Z.div_mod_to_equations. lia.
Qed.

Lemma pad2_ltb n m :
  0 <= n <= 99 -> 0 <= m <= 99 -> str_ltb (pad2 n) (pad2 m) = true <-> n < m.
Proof.
  intros Hn Hm. unfold pad2. cbn [str_ltb].
  rewrite !digit_ltb by (apply Z.div_pos || apply Z.mod_pos_bound; lia).
  rewrite andb_false_r, orb_false_r.
  rewrite orb_true_iff, andb_true_iff, N.eqb_eq, !Z.ltb_lt. split.
  - intros [Hlt|[Heq Hlt]].
    + revert Hlt. Z.div_mod_to_equations. lia.
    + apply digit_inj in Heq; try (apply Z.div_pos; lia).
      revert Heq Hlt. Z.div_mod_to_equations. lia.
  - intros Hlt. destruct (Z_lt_le_dec (n / 10) (m / 10)) as [Hd|Hd]; [by left|right].
    assert (n / 10 = m / 10) as Heq by (revert Hd; Z.div_mod_to_equations; lia).
    split; [by rewrite Heq|]. revert Heq. Z.div_mod_to_equations. lia.
Qed.

Lemma str_ltb_app a a' b b' :
  length a = length a' ->
  str_ltb (a ++ b) (a' ++ b') = true
  <-> str_ltb a a' = true ∨ (a = a' ∧ str_ltb b b' = true).
Proof.
  revert a'. induction a as [|x a IH]; intros [|y a'] Hlen; try done.
  - cbn. split; [by right|]. by intros [|[_ ?]].
  - cbn [app str_ltb]. injection Hlen as Hlen.
    rewrite !orb_true_iff, !andb_true_iff, N.eqb_eq, (IH a' Hlen). split.
    + intros [Hlt|[-> [Hlt|[-> Hlt]]]]; eauto.
    + intros [[Hlt|[-> Hlt]]|[[= -> ->] Hlt]]; eauto.
Qed.

Lemma pad4_ltb n m :
  0 <= n <= 9999 -> 0 <= m <= 9999 -> str_ltb (pad4 n) (pad4 m) = true <-> n < m.
Proof.
  intros Hn Hm.
  assert (Hsplit : forall k, pad4 k = pad2 (k / 100) ++ pad2 (k mod 100)).
  { intros k. unfold pad4, pad2. cbn [app].
    assert (E1 : k / 100 / 10 = k / 1000) by (Z.div_mod_to_equations; lia).
    assert (E2 : k mod 100 / 10 = k / 10 mod 10) by (Z.div_mod_to_equations; lia).
    assert (E3 : k mod 100 mod 10 = k mod 10) by (Z.div_mod_to_equations; lia).
    by rewrite E1, E2, E3. }
  rewrite !Hsplit, str_ltb_app by done.
  assert (0 <= n / 100 <= 99 ∧ 0 <= m / 100 <= 99 ∧
          0 <= n mod 100 <= 99 ∧ 0 <= m mod 100 <= 99) as (? & ? & ? & ?)
    by (Z.div_mod_to_equations; lia).
  rewrite !pad2_ltb by done. split.
  - intros [Hlt|[Heq Hlt]].
    + revert Hlt. Z.div_mod_to_equations. lia.
    + apply pad2_inj in Heq; [|done..]. revert Heq Hlt. Z.div_mod_to_equations. lia.
  - intros Hlt. destruct (Z_lt_le_dec (n / 100) (m / 100)) as [Hd|Hd]; [by left|right].
    assert (n / 100 = m / 100) as Heq by (revert Hd; Z.div_mod_to_equations; lia).
    split; [by rewrite Heq|]. revert Heq. Z.div_mod_to_equations. lia.
Qed.

Section JSONEncoderProperties.
Context `{Runtime}.

Lemma year_field_pad4 y : 1000 <= y -> year_field y = pad4 y.
Proof.
  intros Hy. unfold year_field. destruct (Z.leb_spec 1000 y); [|lia].
  by rewrite orb_true_r.
Qed.

(** From the year 1000 on, a datetime is written on exactly twenty
    characters, and two datetimes are written the same way exactly when
    they show the same second: the encoding depends on the six fields
    from the year to the second and on nothing else, so microseconds and
    the time zone are dropped. *)
Theorem strftime_iso_second (Other : Type) d1 d2 :
  valid_datetime d1 -> valid_datetime d2 ->
  1000 <= dt_year d1 -> 1000 <= dt_year d2 ->
  (exists text, JSONEncoder_default (ADatetime d1 : PyObject Other) = Ok (PStr text) ∧
                length text = 20%nat) ∧
  (JSONEncoder_default (ADatetime d1 : PyObject Other)
   = JSONEncoder_default (ADatetime d2 : PyObject Other)
   <-> same_second d1 d2).
Proof.
  intros (Hy1 & Hm1 & Hd1 & Hh1 & Hi1 & Hs1 & _) (Hy2 & Hm2 & Hd2 & Hh2 & Hi2 & Hs2 & _)
    Hk1 Hk2.
  cbn [JSONEncoder_default]. unfold strftime_iso. rewrite !year_field_pad4 by done.
  split; [by eexists|]. unfold same_second. split.
  - intros Heq.
    apply (f_equal (fun r => match r with Ok (PStr text) => text | _ => [] end)) in Heq.
    cbv beta iota in Heq.
    apply app_inj_1 in Heq as [Hy Heq]; [|done].
    apply app_inj_1 in Heq as [_ Heq]; [|done].
    apply app_inj_1 in Heq as [Hm Heq]; [|done].
    apply app_inj_1 in Heq as [_ Heq]; [|done].
    apply app_inj_1 in Heq as [Hd Heq]; [|done].
    apply app_inj_1 in Heq as [_ Heq]; [|done].
    apply app_inj_1 in Heq as [Hh Heq]; [|done].
    apply app_inj_1 in Heq as [_ Heq]; [|done].
    apply app_inj_1 in Heq as [Hi Heq]; [|done].
    apply app_inj_1 in Heq as [_ Heq]; [|done].
    apply app_inj_1 in Heq as [Hs _]; [|done].
    apply pad4_inj in Hy; [|lia..]. apply pad2_inj in Hm, Hd, Hh, Hi, Hs; lia.
  - intros (-> & -> & -> & -> & -> & ->). done.
Qed.

(** From the year 1000 on, the written forms of two datetimes compare,
    as strings, the way their six fields do. *)
Lemma strftime_iso_fields_order d1 d2 :
  valid_datetime d1 -> valid_datetime d2 ->
  1000 <= dt_year d1 -> 1000 <= dt_year d2 ->
  str_ltb (strftime_iso d1) (strftime_iso d2) = true <-> earlier_second d1 d2.
Proof.
  intros (Hy1 & Hm1 & Hd1 & Hh1 & Hi1 & Hs1 & _) (Hy2 & Hm2 & Hd2 & Hh2 & Hi2 & Hs2 & _)
    Hk1 Hk2.
  unfold strftime_iso, earlier_second. rewrite !year_field_pad4 by done.
  assert (Hsep : forall (c : N) a b,
             str_ltb ([c] ++ a) ([c] ++ b) = true <-> str_ltb a b = true).
  { intros c a b. rewrite str_ltb_app by done. cbn [str_ltb].
    rewrite N.ltb_irrefl, andb_false_r. cbn [orb].
    split; [by intros [?|[_ ?]]|by right]. }
  change (str "-") with [45%N]. change (str "T") with [84%N].
  change (str ":") with [58%N]. change (str "Z") with [90%N].
  rewrite str_ltb_app, pad4_ltb by (done || lia). rewrite Hsep.
  rewrite str_ltb_app, pad2_ltb by (done || lia). rewrite Hsep.
  rewrite str_ltb_app, pad2_ltb by (done || lia). rewrite Hsep.
  rewrite str_ltb_app, pad2_ltb by (done || lia). rewrite Hsep.
  rewrite str_ltb_app, pad2_ltb by (done || lia). rewrite Hsep.
  rewrite str_ltb_app, pad2_ltb by (done || lia).
  cbn [str_ltb]. rewrite N.ltb_irrefl. cbn [orb andb].
  split.
  - intros [?|[Ey [?|[Em [?|[Ed [?|[Eh [?|[Ei [?|[_ ?]]]]]]]]]]]]; try done.
    all: try apply pad4_inj in Ey; try apply pad2_inj in Em; try apply pad2_inj in Ed;
      try apply pad2_inj in Eh; try apply pad2_inj in Ei; try lia.
    all: tauto.
  - intros [?|[-> [?|[-> [?|[-> [?|[-> [?|[-> ?]]]]]]]]]]; intuition auto.
Qed.

Lemma lex_ltb_second d1 d2 :
  lex_ltb (datetime_fields (replace_microsecond d1 0))
          (datetime_fields (replace_microsecond d2 0)) = true
  <-> earlier_second d1 d2.
Proof.
  unfold datetime_fields, replace_microsecond, earlier_second.
  cbn [lex_ltb dt_year dt_month dt_day dt_hour dt_minute dt_second dt_microsecond].
  rewrite andb_false_r, orb_false_r.
  repeat (rewrite orb_true_iff || rewrite andb_true_iff
          || rewrite Z.ltb_lt || rewrite Z.eqb_eq).
  done.
Qed.

(** From the year 1000 on, and for two datetimes that Python compares by
    their fields, as it does two naive ones and two of the same time
    zone, the written forms compare as strings the way the datetimes do
    once their microseconds are set aside.  (Two aware datetimes of
    different offsets are compared by their instants, which the written
    forms do not show.) *)
Theorem strftime_iso_order d1 d2 :
  valid_datetime d1 -> valid_datetime d2 ->
  1000 <= dt_year d1 -> 1000 <= dt_year d2 ->
  compared_by_fields d1 d2 = true ->
  str_ltb (strftime_iso d1) (strftime_iso d2) = true
  <-> datetime_lt (replace_microsecond d1 0) (replace_microsecond d2 0) = Ok true.
Proof.
  intros Hv1 Hv2 Hk1 Hk2 Hcmp.
  rewrite (strftime_iso_fields_order d1 d2 Hv1 Hv2 Hk1 Hk2).
  unfold datetime_lt.
  assert (Hcmp' : compared_by_fields (replace_microsecond d1 0) (replace_microsecond d2 0)
                  = true) by exact Hcmp.
  rewrite Hcmp'. split.
  - intros He. apply lex_ltb_second in He. by rewrite He.
  - intros [= He]. by apply lex_ltb_second.
Qed.

End JSONEncoderProperties.

(** ** The configuration and the encoder on concrete values *)

Lemma app_mongo_settings_witness :
  let env : gmap (list N) (list N) :=
    <[str "MONGO_DBNAME" := str "prod"]> (<[str "FLASK_PORT" := str "8080"]> ∅) in
  let config :=
    {| PROJECT_NAME := str "AI Summarizer"; DEBUG := false; FLASK_PORT := 8080;
       MONGO_DBNAME := str "prod"; MONGO_DBURI := str "mongodb://localhost:27017";
       BASE_URL := str "http://localhost:9000"; CORS_ALLOWED_ORIGINS := [[]] |} in
  let settings := app_settings env config in
  (app_MONGO_DBNAME settings = Some (MONGO_DBNAME config)
   <-> is_Some (env !! str "MONGO_DBNAME")) ∧
  (app_MONGO_URI settings = Some (MONGO_DBURI config)
   <-> is_Some (env !! str "MONGO_DBURI")) ∧
  (env !! str "MONGO_DBNAME" = None ->
   app_MONGO_DBNAME settings = None ∧ MONGO_DBNAME config = str "summarizer_db") ∧
  (env !! str "MONGO_DBURI" = None ->
   app_MONGO_URI settings = None ∧ MONGO_DBURI config = str "mongodb://localhost:27017").
Proof.
  intros env config.
  apply (@app_mongo_settings stub_runtime env config).
  by vm_compute.
Defined.

(** Two datetimes of the same second, a microsecond apart. *)
Lemma strftime_iso_second_witness :
  let d1 := mkDatetime 2026 11 4 9 42 7 123456 None in
  let d2 := mkDatetime 2026 11 4 9 42 7 123457 None in
  (exists text, @JSONEncoder_default stub_runtime unit (ADatetime d1) = Ok (PStr text) ∧
                length text = 20%nat) ∧
  (@JSONEncoder_default stub_runtime unit (ADatetime d1)
   = @JSONEncoder_default stub_runtime unit (ADatetime d2)
   <-> same_second d1 d2).
Proof.
  intros d1 d2.
  apply (@strftime_iso_second stub_runtime unit d1 d2);
    unfold valid_datetime; cbn; lia.
Defined.

(** Two naive datetimes. *)
Lemma strftime_iso_order_witness :
  let d1 := mkDatetime 2026 11 4 9 42 7 123456 None in
  let d2 := mkDatetime 2026 11 4 10 0 0 0 None in
  str_ltb (@strftime_iso stub_runtime d1) (@strftime_iso stub_runtime d2) = true
  <-> datetime_lt (replace_microsecond d1 0) (replace_microsecond d2 0) = Ok true.
Proof.
  intros d1 d2.
  apply (@strftime_iso_order stub_runtime d1 d2);
    [unfold valid_datetime; cbn; lia..|reflexivity].
Defined.

(** Nine o'clock at five hours east of UTC comes before eight o'clock
    UTC of the same day; the written forms say the opposite. *)
Example strftime_iso_offsets :
  let east := mkTzinfo 1 (Some (5 * 3600 * 1000000)) in
  let utc := mkTzinfo 0 (Some 0) in
  let d1 := mkDatetime 2026 11 4 9 0 0 0 (Some east) in
  let d2 := mkDatetime 2026 11 4 8 0 0 0 (Some utc) in
  datetime_lt d1 d2 = Ok true ∧
  str_ltb (@strftime_iso stub_runtime d1) (@strftime_iso stub_runtime d2) = false ∧
  @strftime_iso stub_runtime d1 = str "2026-11-04T09:00:00Z".
Proof. by vm_compute. Qed.

(** An object that is neither an [ObjectId] nor a [datetime] is not
    passed on to the provider: the encoder raises. *)
Example JSONEncoder_default_other :
  exists e, @JSONEncoder_default stub_runtime _ (Another 3.14%Q) = Raise e ∧
            exc_class e = TypeError.
Proof. by eexists. Qed.

Example strftime_iso_example :
  @strftime_iso stub_runtime (mkDatetime 2026 11 4 9 42 7 123456 None)
  = str "2026-11-04T09:42:07Z".
Proof. reflexivity. Qed.

Example config_example :
  let env : gmap (list N) (list N) :=
    <[str "DEBUG" := str "TRUE"]>
      (<[str "CORS_ALLOWED_ORIGINS" := str "https://a.example, https://b.example,"]> ∅) in
  @config_DEBUG stub_runtime env = true ∧
  config_CORS_ALLOWED_ORIGINS env
  = [str "https://a.example"; str " https://b.example"; str ""].
Proof. by vm_compute. Qed.

Example config_unset :
  @load_config stub_runtime ∅
  = Ok {| PROJECT_NAME := str "AI Summarizer"; DEBUG := false; FLASK_PORT := 5000;
          MONGO_DBNAME := str "summarizer_db";
          MONGO_DBURI := str "mongodb://localhost:27017";
          BASE_URL := str "http://localhost:9000";
          CORS_ALLOWED_ORIGINS := [str ""] |}.
Proof. by vm_compute. Qed.
